(** * Activation layers of [megengine/module/activation.py]

    The file defines eight [Module] subclasses (Softmax, Sigmoid, SiLU, GELU,
    ReLU, PReLU, LeakyReLU, ELU).  Each one stores its configuration in
    attributes of [self] and its [forward] hands the input to an operator of
    [megengine.functional].

    Embedding.  Tensors live in a heap and are passed by reference, as Python
    passes objects; the receiver [self] is part of the state, so that an
    attribute assignment is a state update and a method that performs none
    can be shown to leave the object alone.  Methods are computations in a
    state-and-exception monad.  Python [int] is [Z]; Python [float] and the
    elements of a tensor are idealised as real numbers [R].  Where the
    source asks numpy for [float32] elements, the conversion is [np_float32]
    of the class [Numpy] below.

    The base class [Module] and the operators of [megengine.functional] are
    not among the sources.  Of [Module] nothing is modelled: the call of
    [super().__init__] leaves no trace in the records below.  The operators
    are parameters of the layers' [forward]. *)

From Stdlib Require Import String ZArith List Bool Reals Lra Lia Arith.
From Stdlib Require SpecFloat DecimalString DecimalZ.
Import ListNotations.

(** ** Tensors *)

(** A tensor: its shape (a tuple of ints) and its elements in row-major
    order. *)
Record Tensor : Type := mkTensor { shape : list Z; data : list R }.

(** Number of elements of a tensor of shape [s]. *)
Definition numel (s : list Z) : Z := fold_right Z.mul 1%Z s.

Definition well_formed (x : Tensor) : Prop :=
  Forall (fun d => (0 <= d)%Z) (shape x) /\
  length (data x) = Z.to_nat (numel (shape x)).

(** Python's [==] on two tuples of ints. *)
Fixpoint tuple_eqb (a b : list Z) : bool :=
  match a, b with
  | [], [] => true
  | x :: a', y :: b' => (x =? y)%Z && tuple_eqb a' b'
  | _, _ => false
  end.

(** The tensor of shape [s] that holds [v] at every position. *)
Definition filled (s : list Z) (v : R) : Tensor :=
  mkTensor s (repeat v (Z.to_nat (numel s))).

(** The tensor built from a flat Python list, as in [Parameter(data=[init])]. *)
Definition tensor_of_list (l : list R) : Tensor :=
  mkTensor [Z.of_nat (length l)] l.

(** ** Row-major layout *)

(** Number of positions of a tensor of dimensions [dims]. *)
Definition size (dims : list nat) : nat := fold_right Nat.mul 1%nat dims.

(** Row-major position of the element with multi-index [idx] in a tensor of
    dimensions [dims]. *)
Fixpoint flat_index (dims idx : list nat) : nat :=
  match dims, idx with
  | _ :: dims', i :: idx' => i * size dims' + flat_index dims' idx'
  | _, _ => 0
  end.

(** The multi-index [idx] with coordinate [k] set to [j]. *)
Definition set_coord (k j : nat) (idx : list nat) : list nat :=
  firstn k idx ++ j :: skipn (S k) idx.

(** The positions of the line through position [p] along an axis of extent
    [n] whose consecutive elements are [inner] positions apart. *)
Definition line (n inner p : nat) : list nat :=
  map (fun j => p / (n * inner) * (n * inner) + j * inner + p mod inner)
      (seq 0 n).

(** Sum of a list of reals. *)
Definition Rsum (l : list R) : R := fold_right Rplus 0%R l.

(** ** Exceptions and outcomes *)

Inductive exn : Type :=
| AssertionError (msg : string)
| IndexError (msg : string)
| OperatorError (msg : string)   (* raised inside a delegated operator *)
| ReferenceError                 (* a reference outside the heap *)
| ValueError (msg : string)
| MemoryError (msg : string).

Inductive outcome (A : Type) : Type :=
| Return (a : A)
| Raise (e : exn).
Arguments Return {A} a.
Arguments Raise {A} e.

(** ** numpy

    numpy is a library outside the repository.  What [np.full] depends on
    beyond its arguments is a parameter of the development: the value
    [np.float32] gives to a Python float, and the number of float32 elements
    an array can have on the machine at hand. *)

Class Numpy : Type := {
  np_float32 : R -> R;
  np_capacity : Z
}.

(** [np.full(shape, fill_value, dtype=dtype)]: the array of that shape with
    [fill_value], converted to [dtype], at every position.  numpy refuses a
    negative dimension with a ValueError, and an array it cannot allocate
    with a MemoryError (a ValueError when the size is beyond numpy's own
    limit; the model has the one exception for both). *)
Definition np_full {N : Numpy} (s : list Z) (fill_value : R)
  (dtype : R -> R) : outcome Tensor :=
  if negb (forallb (Z.leb 0) s) then
    Raise (ValueError "negative dimensions are not allowed")
  else if (np_capacity <? numel s)%Z then
    Raise (MemoryError "Unable to allocate array")
  else Return (filled s (dtype fill_value)).

(** *** Rounding to binary32

    A concrete [np.float32] on the reals: the binary32 number nearest to
    [r], ties to the even significand, with the fixed quantum 2^-149 below
    2^-126.  Beyond the binary32 range [np.float32] gives an infinity, which
    the reals do not have; the definition is meant for |r| < 2^128. *)

(** The [e] with 2^e <= |r| < 2^(e+1). *)
Definition binade (r : R) : Z := Int_part (ln (Rabs r) / ln 2).

(** The integer nearest to [r], the even one of two at equal distance. *)
Definition nearest_even (r : R) : Z :=
  let f := Int_part r in
  if Rlt_dec (r - IZR f) (1 / 2) then f
  else if Rlt_dec (1 / 2) (r - IZR f) then (f + 1)%Z
  else if Z.even f then f else (f + 1)%Z.

Definition round_binary32 (r : R) : R :=
  let quantum := powerRZ 2 (Z.max (binade r) (-126) - 23) in
  (IZR (nearest_even (r / quantum)) * quantum)%R.

(** numpy with binary32 rounding on a machine that can allocate arrays of up
    to [capacity] elements. *)
Definition numpy_binary32 (capacity : Z) : Numpy :=
  {| np_float32 := round_binary32; np_capacity := capacity |}.

Definition example_numpy : Numpy := numpy_binary32 (2 ^ 20).


(** ** The state: the receiver and the heap of tensors *)

Definition ref := nat.

Record world (L : Type) : Type := World { self : L; heap : list Tensor }.
Arguments World {L} self heap.
Arguments self {L} w.
Arguments heap {L} w.

Definition M (L A : Type) : Type := world L -> outcome A * world L.

Definition ret {L A} (a : A) : M L A := fun w => (Return a, w).

Definition bind {L A B} (m : M L A) (k : A -> M L B) : M L B :=
  fun w => match m w with
           | (Return a, w') => k a w'
           | (Raise e, w') => (Raise e, w')
           end.

Definition raise {L A} (e : exn) : M L A := fun w => (Raise e, w).

(** [self.attr] *)
Definition getattr {L A} (attr : L -> A) : M L A := fun w => (Return (attr (self w)), w).

(** [self.attr = v], with [upd] the update of that field. *)
Definition setattr {L} (upd : L -> L) : M L unit :=
  fun w => (Return tt, World (upd (self w)) (heap w)).

(** Reading the tensor a reference points to. *)
Definition load {L} (r : ref) : M L Tensor :=
  fun w => match nth_error (heap w) r with
           | Some x => (Return x, w)
           | None => (Raise ReferenceError, w)
           end.

(** A new tensor object; nothing that exists is overwritten. *)
Definition alloc {L} (x : Tensor) : M L ref :=
  fun w => (Return (length (heap w)), World (self w) (heap w ++ [x])).

Declare Scope monad_scope.
Delimit Scope monad_scope with monad.
Notation "x <- c1 ;; c2" := (bind c1 (fun x => c2))
  (at level 100, c1 at next level, right associativity) : monad_scope.
Notation "c1 ;; c2" := (bind c1 (fun _ => c2))
  (at level 100, right associativity) : monad_scope.
Local Open Scope monad_scope.

(** [s[i]] on a tuple. *)
Definition getitem {L} (s : list Z) (i : nat) : M L Z :=
  match nth_error s i with
  | Some d => ret d
  | None => raise (IndexError "tuple index out of range")
  end.

(** [assert cond, msg] *)
Definition assert_ {L} (cond : bool) (msg : string) : M L unit :=
  if cond then ret tt else raise (AssertionError msg).

(** The result of an operator becomes a new tensor object; its exception, if
    any, propagates. *)
Definition yield {L} (r : outcome Tensor) : M L ref :=
  match r with
  | Return out => alloc out
  | Raise e => raise e
  end.

(** ** The operators of [megengine.functional]

    The layers below take the operator they delegate to as a parameter.  The
    module [Functional] gives, for the operators whose values the
    specification describes, a model to instantiate that parameter with. *)

Module Functional.

Local Open Scope R_scope.

(** Modelled from the spec: the rule of [megengine.functional.prelu], which
    is not among the sources, for one element [x] and slope [a]: the spec's
    "max(x,0) + a*min(x,0)". *)
Definition prelu_elt (a x : R) : R := Rmax x 0 + a * Rmin x 0.

(** Modelled from the spec: [megengine.functional.prelu], which is not among
    the sources, with "per-channel slope": position [p] of an NCHW tensor
    with [c] channels of [hw] elements each lies in channel
    [(p / hw) mod c] and takes that channel's slope. *)
Definition per_channel (ws : list R) (c hw : nat) (d : list R) : list R :=
  map (fun px => prelu_elt (nth ((fst px / hw) mod c) ws 0) (snd px))
      (combine (seq 0 (length d)) d).

(** Modelled from the spec: [megengine.functional.prelu] is not among the
    sources.  The spec describes two forms: a weight of shape (1,), one
    slope for every element of an input of any shape, and a weight of shape
    (1, C, 1, 1) against an NCHW input with C channels, one slope for each
    channel.  The output has the shape of the input.  Operand shapes outside
    these two forms are not described; the model reports them as an error of
    the operator. *)
Definition prelu (inp weight : Tensor) : outcome Tensor :=
  if tuple_eqb (shape weight) [1]%Z then
    match data weight with
    | [a] => Return (mkTensor (shape inp) (map (prelu_elt a) (data inp)))
    | _ => Raise (OperatorError "prelu: malformed weight")
    end
  else
    match shape inp with
    | [_; c; h; w] =>
        if tuple_eqb (shape weight) [1; c; 1; 1]%Z then
          Return (mkTensor (shape inp)
                    (per_channel (data weight) (Z.to_nat c) (Z.to_nat (h * w))
                       (data inp)))
        else Raise (OperatorError "prelu: operand shapes")
    | _ => Raise (OperatorError "prelu: operand shapes")
    end.

(** Modelled from the spec: [megengine.functional.leaky_relu] is not among
    the sources.  The rule for one element is the first formula of the
    layer's documentation, max(0,x) + negative_slope * min(0,x); the spec
    gives the same function by cases. *)
Definition leaky_relu_elt (negative_slope x : R) : R :=
  Rmax 0 x + negative_slope * Rmin 0 x.

(** Modelled from the spec: [megengine.functional.leaky_relu], which is not
    among the sources, applies the rule to every element; the output has
    the shape of the input. *)
Definition leaky_relu (inp : Tensor) (negative_slope : R) : outcome Tensor :=
  Return (mkTensor (shape inp) (map (leaky_relu_elt negative_slope) (data inp))).

(** Modelled from the spec: [megengine.functional.elu] is not among the
    sources.  The rule for one element is the spec's (and the layer's
    documentation's) "x for x > 0 and alpha*(exp(x)-1) for x <= 0". *)
Definition elu_elt (alpha x : R) : R :=
  if Rlt_dec 0 x then x else alpha * (exp x - 1).

(** Modelled from the spec: [megengine.functional.elu], which is not among
    the sources, applies the rule to every element; the output has the shape
    of the input. *)
Definition elu (inp : Tensor) (alpha : R) : outcome Tensor :=
  Return (mkTensor (shape inp) (map (elu_elt alpha) (data inp))).

(** *** Softmax *)

(** Modelled from the spec: the values of [megengine.functional.softmax],
    which is not among the sources.  The documentation of the layer defines
    Softmax(x_i) = exp(x_i) / sum_j exp(x_j), the sum taken over the elements
    along the axis. *)
Definition softmax_data (n inner : nat) (d : list R) : list R :=
  map (fun p => exp (nth p d 0) /
                Rsum (map (fun q => exp (nth q d 0)) (line n inner p)))
      (seq 0 (length d)).

(** Modelled from the spec: the axis that the [axis] argument of
    [megengine.functional.softmax], which is not among the sources, denotes
    for a tensor of [ndim] dimensions: an index from the front, or a
    negative one from the back; [None] is "the highest ranked axis" of the
    layer's documentation, the last one. *)
Definition resolve_axis (ndim : nat) (axis : option Z) : option nat :=
  let a := match axis with Some a => a | None => (Z.of_nat ndim - 1)%Z end in
  if ((0 <=? a) && (a <? Z.of_nat ndim))%Z then Some (Z.to_nat a)
  else if ((- Z.of_nat ndim <=? a) && (a <? 0))%Z
       then Some (Z.to_nat (a + Z.of_nat ndim))
       else None.

(** Modelled from the spec: [megengine.functional.softmax] is not among the
    sources.  It normalises along the given axis, keeps the shape, and fails
    on an axis the input does not have. *)
Definition softmax (inp : Tensor) (axis : option Z) : outcome Tensor :=
  match resolve_axis (length (shape inp)) axis with
  | None => Raise (OperatorError "softmax: invalid axis")
  | Some k =>
      let dims := map Z.to_nat (shape inp) in
      Return (mkTensor (shape inp)
                (softmax_data (nth k dims 0%nat) (size (skipn (S k) dims))
                   (data inp)))
  end.

(** *** ReLU, Sigmoid, SiLU *)

(** Modelled from the spec: the rule of [megengine.functional.relu], which
    is not among the sources, for one element: the layer's documentation
    gives ReLU(x) = max(x, 0). *)
Definition relu_elt (x : R) : R := Rmax x 0.

(** Modelled from the spec: [megengine.functional.relu], which is not among
    the sources, applies the rule to every element; the output has the
    shape of the input. *)
Definition relu (inp : Tensor) : outcome Tensor :=
  Return (mkTensor (shape inp) (map relu_elt (data inp))).

(** Modelled from the spec: the rule of [megengine.functional.sigmoid],
    which is not among the sources, for one element: the layer's
    documentation gives Sigmoid(x) = 1 / (1 + exp(-x)). *)
Definition sigmoid_elt (x : R) : R := 1 / (1 + exp (- x)).

(** Modelled from the spec: [megengine.functional.sigmoid], which is not
    among the sources, applies the rule to every element; the output has
    the shape of the input. *)
Definition sigmoid (inp : Tensor) : outcome Tensor :=
  Return (mkTensor (shape inp) (map sigmoid_elt (data inp))).

(** Modelled from the spec: the rule of [megengine.functional.silu], which
    is not among the sources, for one element: the layer's documentation
    gives SiLU(x) = x / (1 + exp(-x)). *)
Definition silu_elt (x : R) : R := x / (1 + exp (- x)).

(** Modelled from the spec: [megengine.functional.silu], which is not among
    the sources, applies the rule to every element; the output has the
    shape of the input. *)
Definition silu (inp : Tensor) : outcome Tensor :=
  Return (mkTensor (shape inp) (map silu_elt (data inp))).

End Functional.


(** ** The documented example in binary32

    The tensors of the source hold [float32] elements.  The rule of [prelu]
    is given here a second time on IEEE binary32 numbers, to check that the
    example of the documentation does not depend on the idealisation of the
    elements as reals. *)

Module Float32.

Definition prec : Z := 24.
Definition emax : Z := 128.

(** The binary32 number nearest to an integer. *)
Definition of_Z (z : Z) : SpecFloat.spec_float :=
  SpecFloat.binary_normalize prec emax z 0 false.

(** The binary32 number nearest to the decimal [num / den], as
    [np.float32] reads a literal: the division is correctly rounded. *)
Definition decimal (num den : Z) : SpecFloat.spec_float :=
  SpecFloat.SFdiv prec emax (of_Z num) (of_Z den).

Definition maximum (x y : SpecFloat.spec_float) : SpecFloat.spec_float :=
  if SpecFloat.SFltb x y then y else x.

Definition minimum (x y : SpecFloat.spec_float) : SpecFloat.spec_float :=
  if SpecFloat.SFltb x y then x else y.

(** Modelled from the spec: the rule of [megengine.functional.prelu], which
    is not among the sources, "max(x,0) + a*min(x,0)", in binary32
    arithmetic. *)
Definition prelu_elt (a x : SpecFloat.spec_float) : SpecFloat.spec_float :=
  SpecFloat.SFadd prec emax
    (maximum x (of_Z 0))
    (SpecFloat.SFmul prec emax a (minimum x (of_Z 0))).

End Float32.

(** ** Python's [str] on the values an axis can take *)

(** [str(z)] for an int: its decimal digits, with a minus sign for a
    negative one. *)
Definition str_int (z : Z) : string :=
  DecimalString.NilEmpty.string_of_int (Z.to_int z).

(** [str(axis)] for an axis that is [None] or an int. *)
Definition str_axis (axis : option Z) : string :=
  match axis with
  | None => "None"
  | Some z => str_int z
  end.

(** ** Softmax *)

Module Softmax.

Record t : Type := mk { axis : option Z }.

Definition set_axis (v : option Z) (s : t) : t := mk v.

Definition __init__ (axis : option Z) : M t unit :=
  setattr (set_axis axis).

Section Forward.

(** [megengine.functional.softmax] *)
Variable softmax : Tensor -> option Z -> outcome Tensor.

Definition forward (inputs : ref) : M t ref :=
  x <- load inputs ;;
  a <- getattr axis ;;
  yield (softmax x a).

End Forward.

(** ["axis={axis}".format(axis=self.axis)] *)
Definition _module_info_string : M t string :=
  a <- getattr axis ;;
  ret ("axis=" ++ str_axis a)%string.

End Softmax.

(** ** Sigmoid, SiLU, GELU, ReLU: no attribute of their own *)

Module Sigmoid.

Record t : Type := mk { }.

Section Forward.

Variable sigmoid : Tensor -> outcome Tensor.

Definition forward (inputs : ref) : M t ref :=
  x <- load inputs ;;
  yield (sigmoid x).

End Forward.

End Sigmoid.

Module SiLU.

Record t : Type := mk { }.

Section Forward.

Variable silu : Tensor -> outcome Tensor.

Definition forward (inputs : ref) : M t ref :=
  x <- load inputs ;;
  yield (silu x).

End Forward.

End SiLU.

Module GELU.

Record t : Type := mk { }.

Section Forward.

Variable gelu : Tensor -> outcome Tensor.

Definition forward (inputs : ref) : M t ref :=
  x <- load inputs ;;
  yield (gelu x).

End Forward.

End GELU.

Module ReLU.

Record t : Type := mk { }.

Section Forward.

Variable relu : Tensor -> outcome Tensor.

Definition forward (x : ref) : M t ref :=
  v <- load x ;;
  yield (relu v).

End Forward.

End ReLU.

(** ** PReLU *)

Module PReLU.

Record t : Type := mk { num_parameters : Z; weight : ref }.

Definition set_num_parameters (v : Z) (s : t) : t := mk v (weight s).
Definition set_weight (v : ref) (s : t) : t := mk (num_parameters s) v.

Definition default_num_parameters : Z := 1.
Definition default_init : R := 0.25%R.

(** [PReLU.__init__]; the bookkeeping of [Module.__init__] is not part of
    the record.  [Parameter], which is not among the sources, makes a tensor
    of the array or list it is given; the conversion of the list's floats
    that it may perform is not modelled. *)
Definition __init__ {N : Numpy} (num_parameters : Z) (init : R) : M t unit :=
  setattr (set_num_parameters num_parameters) ;;
  if (num_parameters >? 1)%Z then
    w <- yield (np_full [1; num_parameters; 1; 1]%Z init np_float32) ;;
    setattr (set_weight w)
  else
    w <- alloc (tensor_of_list [init]) ;;
    setattr (set_weight w).

Section Forward.

(** [megengine.functional.prelu] *)
Variable prelu : Tensor -> Tensor -> outcome Tensor.

(** The [assert] statement of [forward].  Python's [or] evaluates its second
    operand, and with it [inputs.shape[1]], only when the first is false. *)
Definition forward_assert (inputs : ref) : M t unit :=
  w <- getattr weight ;;
  wt <- load w ;;
  cond <- (if tuple_eqb (shape wt) [1]%Z then ret true
           else
             x <- load inputs ;;
             c <- getitem (shape x) 1 ;;
             ret (tuple_eqb (shape wt) [1; c; 1; 1]%Z)) ;;
  assert_ cond "invalid weight's shape".

Definition forward (inputs : ref) : M t ref :=
  forward_assert inputs ;;
  x <- load inputs ;;
  w <- getattr weight ;;
  wt <- load w ;;
  yield (prelu x wt).

End Forward.

End PReLU.

(** ** LeakyReLU *)

Module LeakyReLU.

Record t : Type := mk { negative_slope : R }.

Definition set_negative_slope (v : R) (s : t) : t := mk v.

Definition default_negative_slope : R := 0.01%R.

Definition __init__ (negative_slope : R) : M t unit :=
  setattr (set_negative_slope negative_slope).

Section Forward.

(** [megengine.functional.leaky_relu] *)
Variable leaky_relu : Tensor -> R -> outcome Tensor.

Definition forward (inputs : ref) : M t ref :=
  x <- load inputs ;;
  s <- getattr negative_slope ;;
  yield (leaky_relu x s).

End Forward.

End LeakyReLU.

(** ** ELU *)

Module ELU.

Record t : Type := mk { alpha : R }.

Definition set_alpha (v : R) (s : t) : t := mk v.

Definition default_alpha : R := 1%R.

Definition __init__ (alpha : R) : M t unit :=
  setattr (set_alpha alpha).

Section Forward.

(** [megengine.functional.elu] *)
Variable elu : Tensor -> R -> outcome Tensor.

Definition forward (inputs : ref) : M t ref :=
  x <- load inputs ;;
  a <- getattr alpha ;;
  yield (elu x a).

End Forward.

End ELU.

(** ** What a computation leaves alone *)

(** A computation that only reads: the state after it is the state before. *)
Definition readonly {L A} (m : M L A) : Prop :=
  forall w, snd (m w) = w.

(** A computation that, when it returns, has kept the receiver and has only
    added new tensors behind the existing ones, and that, when it raises,
    has changed nothing at all. *)
Definition frame {L A} (m : M L A) : Prop :=
  forall w,
    match m w with
    | (Return _, w') =>
        self w' = self w /\ exists fresh, heap w' = heap w ++ fresh
    | (Raise _, w') => w' = w
    end.

(** The legal forms of PReLU's weight for an input: (1,), or (1, C, 1, 1)
    with C the size of the input's dimension 1. *)
Definition legal_weight (x wt : Tensor) : Prop :=
  shape wt = [1]%Z \/
  exists c, nth_error (shape x) 1 = Some c /\ shape wt = [1; c; 1; 1]%Z.

(** ** Concrete instances *)

(** A receiver before [__init__] has run: its fields are yet to be
    assigned. *)
Definition blank_PReLU : PReLU.t := PReLU.mk 0 0.
Definition blank_Softmax : Softmax.t := Softmax.mk None.
Definition blank_LeakyReLU : LeakyReLU.t := LeakyReLU.mk 0.
Definition blank_ELU : ELU.t := ELU.mk 0.

(** An NCHW batch: 2 images, 3 channels, 4 by 4. *)
Definition nchw_input : Tensor := filled [2; 3; 4; 4]%Z 1%R.

(** A vector of 3 elements, the input of the documentation's example. *)
Definition example_input : Tensor :=
  mkTensor [3]%Z [(-1.2)%R; (-3.7)%R; 2.7%R].

(** A 2 by 2 matrix. *)
Definition matrix_input : Tensor :=
  mkTensor [2; 2]%Z [1%R; 2%R; 3%R; 4%R].

(** The state after [PReLU(num_parameters, init)] with the tensors [xs]
    already in the heap. *)
Definition PReLU_world {N : Numpy} (num_parameters : Z) (init : R)
  (xs : list Tensor) : world PReLU.t :=
  snd (PReLU.__init__ num_parameters init (World blank_PReLU xs)).

(** A weight with one slope, 0.25, for each of 3 channels, and a layer that
    holds it, next to the vector of 3 elements as input. *)
Definition channel_weight : Tensor :=
  mkTensor [1; 3; 1; 1]%Z [0.25%R; 0.25%R; 0.25%R].

Definition rank1_world : world PReLU.t :=
  World (PReLU.mk 3 1) [example_input; channel_weight].

(** ** Sequences of calls *)

(** The heap after the elements of the tensor at [r] have been overwritten
    in place with [d], as an optimizer does with a parameter; the shape
    stays. *)
Fixpoint write (h : list Tensor) (r : ref) (d : list R) : list Tensor :=
  match h, r with
  | [], _ => []
  | x :: h', O => mkTensor (shape x) d :: h'
  | x :: h', S r' => x :: write h' r' d
  end.

(** The states a PReLU instance built by [PReLU(num_parameters, init)] goes
    through: the state its constructor leaves when it returns, then any
    number of calls of
    [forward] on any reference, while other code creates new tensors and
    overwrites the elements of existing ones. *)
Inductive PReLU_reachable {N : Numpy}
  (prelu : Tensor -> Tensor -> outcome Tensor)
  (num_parameters : Z) (init : R) : world PReLU.t -> Prop :=
| reach_init (w0 : world PReLU.t) :
    fst (PReLU.__init__ num_parameters init w0) = Return tt ->
    PReLU_reachable prelu num_parameters init
      (snd (PReLU.__init__ num_parameters init w0))
| reach_forward (w : world PReLU.t) (inputs : ref) :
    PReLU_reachable prelu num_parameters init w ->
    PReLU_reachable prelu num_parameters init
      (snd (PReLU.forward prelu inputs w))
| reach_new_tensor (w : world PReLU.t) (x : Tensor) :
    PReLU_reachable prelu num_parameters init w ->
    PReLU_reachable prelu num_parameters init
      (World (self w) (heap w ++ [x]))
| reach_write (w : world PReLU.t) (r : ref) (d : list R) :
    PReLU_reachable prelu num_parameters init w ->
    PReLU_reachable prelu num_parameters init
      (World (self w) (write (heap w) r d)).

(** The shape of the weight [PReLU.__init__] creates. *)
Definition PReLU_weight_shape (num_parameters : Z) : list Z :=
  if (num_parameters >? 1)%Z then [1; num_parameters; 1; 1]%Z else [1]%Z.

(** A call that, made a second time in the state the first one left,
    returns at the next reference a tensor equal to the one it returned
    first, which is still in place. *)
Definition repeatable {L} (m : M L ref) : Prop :=
  forall w r1 w1,
    m w = (Return r1, w1) ->
    exists out,
      nth_error (heap w1) r1 = Some out /\
      m w1 = (Return (S r1), World (self w1) (heap w1 ++ [out])).

(** * Properties *)

(** ** Tuples and the monad *)

Lemma tuple_eqb_eq (a b : list Z) : tuple_eqb a b = true <-> a = b.
Proof.
  revert b; induction a as [|x a IH]; intros [|y b]; simpl;
    try (split; [discriminate | congruence]); [tauto|].
  rewrite andb_true_iff, Z.eqb_eq, IH.
  split; [intros [-> ->]; reflexivity | intros [= -> ->]; auto].
Qed.

Lemma tuple_eqb_neq (a b : list Z) : tuple_eqb a b = false <-> a <> b.
Proof.
  rewrite <- tuple_eqb_eq. destruct (tuple_eqb a b); split; congruence.
Qed.

Lemma readonly_ret {L A} (a : A) : readonly (@ret L A a).
Proof. intros w; reflexivity. Qed.

Lemma readonly_raise {L A} (e : exn) : readonly (@raise L A e).
Proof. intros w; reflexivity. Qed.

Lemma readonly_getattr {L A} (attr : L -> A) : readonly (getattr attr).
Proof. intros w; reflexivity. Qed.

Lemma readonly_load {L} (r : ref) : readonly (@load L r).
Proof. intros w; unfold load; destruct (nth_error (heap w) r); reflexivity. Qed.

Lemma readonly_getitem {L} (s : list Z) (i : nat) : readonly (@getitem L s i).
Proof. intros w; unfold getitem; destruct (nth_error s i); reflexivity. Qed.

Lemma readonly_assert {L} (c : bool) (msg : string) : readonly (@assert_ L c msg).
Proof. intros w; destruct c; reflexivity. Qed.

Lemma readonly_bind {L A B} (m : M L A) (k : A -> M L B) :
  readonly m -> (forall a, readonly (k a)) -> readonly (bind m k).
Proof.
  intros Hm Hk w; unfold bind.
  specialize (Hm w). destruct (m w) as [[a|e] w1]; simpl in Hm; subst w1.
  - apply Hk.
  - reflexivity.
Qed.

Lemma readonly_if {L A} (c : bool) (m1 m2 : M L A) :
  readonly m1 -> readonly m2 -> readonly (if c then m1 else m2).
Proof. destruct c; auto. Qed.

Lemma frame_yield {L} (r : outcome Tensor) : frame (@yield L r).
Proof.
  intros w; destruct r as [out|e]; simpl; [|reflexivity].
  split; [reflexivity | now exists [out]].
Qed.

Lemma frame_bind {L A B} (m : M L A) (k : A -> M L B) :
  readonly m -> (forall a, frame (k a)) -> frame (bind m k).
Proof.
  intros Hm Hk w; unfold bind.
  specialize (Hm w). destruct (m w) as [[a|e] w1]; simpl in Hm; subst w1.
  - apply Hk.
  - reflexivity.
Qed.

Create HintDb frame_db.
#[export] Hint Resolve readonly_ret readonly_raise readonly_getattr readonly_load
  readonly_getitem readonly_assert readonly_bind readonly_if
  frame_yield frame_bind : frame_db.

Lemma frame_self {L A} (m : M L A) (w : world L) :
  frame m -> self (snd (m w)) = self w.
Proof.
  intros H; specialize (H w). destruct (m w) as [[a|e] w']; simpl.
  - tauto.
  - now subst.
Qed.

Lemma frame_heap {L A} (m : M L A) (w : world L) (r : ref) (x : Tensor) :
  frame m -> nth_error (heap w) r = Some x ->
  nth_error (heap (snd (m w))) r = Some x.
Proof.
  intros H Hr; specialize (H w). destruct (m w) as [[a|e] w']; simpl.
  - destruct H as [_ [fresh ->]].
    rewrite nth_error_app1; [assumption|].
    apply nth_error_Some; congruence.
  - now subst.
Qed.

Lemma frame_raise {L A} (m : M L A) (w : world L) (e : exn) :
  frame m -> fst (m w) = Raise e -> snd (m w) = w.
Proof.
  intros H He; specialize (H w). destruct (m w) as [[a|e'] w']; simpl in *.
  - discriminate.
  - assumption.
Qed.

(** ** PReLU: the shape check of [forward] *)

Section PReLU_forward.

Variable prelu : Tensor -> Tensor -> outcome Tensor.
Variable w : world PReLU.t.
Variables (inputs : ref) (x wt : Tensor).
Hypothesis Hinputs : nth_error (heap w) inputs = Some x.
Hypothesis Hweight : nth_error (heap w) (PReLU.weight (self w)) = Some wt.

(** What the [assert] statement evaluates to. *)
Lemma forward_assert_eval :
  PReLU.forward_assert inputs w =
  if tuple_eqb (shape wt) [1]%Z then (Return tt, w)
  else match nth_error (shape x) 1 with
       | None => (Raise (IndexError "tuple index out of range"), w)
       | Some c =>
           if tuple_eqb (shape wt) [1; c; 1; 1]%Z then (Return tt, w)
           else (Raise (AssertionError "invalid weight's shape"), w)
       end.
Proof.
  unfold PReLU.forward_assert, bind, getattr, load, getitem; cbv beta.
  rewrite Hweight.
  destruct (tuple_eqb (shape wt) [1]%Z); [reflexivity|].
  rewrite Hinputs.
  destruct (nth_error (shape x) 1) as [c|]; [|reflexivity].
  unfold ret. destruct (tuple_eqb (shape wt) [1; c; 1; 1]%Z); reflexivity.
Qed.

Lemma forward_after_assert :
  PReLU.forward_assert inputs w = (Return tt, w) ->
  PReLU.forward prelu inputs w = yield (prelu x wt) w.
Proof.
  intros H. unfold PReLU.forward, bind at 1. rewrite H.
  unfold bind, getattr, load; cbv beta. now rewrite Hinputs, Hweight.
Qed.

Lemma forward_assert_raises (e : exn) :
  PReLU.forward_assert inputs w = (Raise e, w) ->
  PReLU.forward prelu inputs w = (Raise e, w).
Proof.
  intros H. unfold PReLU.forward, bind at 1. now rewrite H.
Qed.

Lemma legal_weight_dec :
  legal_weight x wt <-> PReLU.forward_assert inputs w = (Return tt, w).
Proof using Hinputs Hweight.
  clear prelu. rewrite forward_assert_eval. unfold legal_weight.
  destruct (tuple_eqb (shape wt) [1]%Z) eqn:E1.
  - apply tuple_eqb_eq in E1. tauto.
  - apply tuple_eqb_neq in E1.
    destruct (nth_error (shape x) 1) as [c|].
    + destruct (tuple_eqb (shape wt) [1; c; 1; 1]%Z) eqn:E2.
      * apply tuple_eqb_eq in E2. split; [reflexivity|]. intros _. right; eauto.
      * apply tuple_eqb_neq in E2. split; [|discriminate].
        intros [H|[c' [[= <-] H]]]; contradiction.
    + split; [|discriminate]. intros [H|[c' [H _]]]; [contradiction|discriminate].
Qed.

Lemma illegal_weight_raises :
  ~ legal_weight x wt ->
  exists e, PReLU.forward_assert inputs w = (Raise e, w) /\
            (e = AssertionError "invalid weight's shape" <->
             exists c, nth_error (shape x) 1 = Some c).
Proof using Hinputs Hweight.
  clear prelu. intros Hn. rewrite legal_weight_dec in Hn. revert Hn.
  rewrite forward_assert_eval.
  destruct (tuple_eqb (shape wt) [1]%Z); [congruence|].
  destruct (nth_error (shape x) 1) as [c|].
  - destruct (tuple_eqb (shape wt) [1; c; 1; 1]%Z); [congruence|].
    intros _. eexists; split; [reflexivity|]. split; eauto.
  - intros _. eexists; split; [reflexivity|].
    split; [discriminate | intros [c H]; discriminate].
Qed.

End PReLU_forward.

(** The exception [forward] raises on an illegal weight: the AssertionError
    of the [assert] statement when the input has a dimension 1 to compare
    with, the IndexError of [inputs.shape[1]] when it has none. *)
Lemma illegal_weight_exception
  (prelu : Tensor -> Tensor -> outcome Tensor)
  (w : world PReLU.t) (inputs : ref) (x wt : Tensor) :
  nth_error (heap w) inputs = Some x ->
  nth_error (heap w) (PReLU.weight (self w)) = Some wt ->
  ~ legal_weight x wt ->
  PReLU.forward prelu inputs w =
  (Raise (match nth_error (shape x) 1 with
          | Some _ => AssertionError "invalid weight's shape"
          | None => IndexError "tuple index out of range"
          end), w).
Proof.
  intros Hx Hw Hl.
  destruct (illegal_weight_raises w inputs x wt Hx Hw Hl) as [e [He Hk]].
  rewrite (forward_assert_raises prelu w inputs e He). f_equal. f_equal.
  revert He. rewrite (forward_assert_eval w inputs x wt Hx Hw).
  destruct (tuple_eqb (shape wt) [1]%Z); [discriminate|].
  destruct (nth_error (shape x) 1) as [c|].
  - destruct (tuple_eqb (shape wt) [1; c; 1; 1]%Z); [discriminate|].
    now intros [= <-].
  - now intros [= <-].
Qed.

Lemma rank1_world_illegal : ~ legal_weight example_input channel_weight.
Proof. intros [H|[c [Hc _]]]; discriminate. Qed.

Lemma rank1_world_forward :
  PReLU.forward Functional.prelu 0 rank1_world =
  (Raise (IndexError "tuple index out of range"), rank1_world).
Proof. reflexivity. Qed.

(** C1 as it is written fails on an input without a dimension 1: for the
    vector of 3 elements and a weight of shape (1, 3, 1, 1) the weight's
    shape is neither legal form, and [forward] fails before the operator,
    yet not with an assertion failure: reading [inputs.shape[1]] raises
    IndexError. *)
Lemma C1_counterexample :
  ~ legal_weight example_input channel_weight /\
  PReLU.forward Functional.prelu 0 rank1_world =
    (Raise (IndexError "tuple index out of range"), rank1_world) /\
  ~ ((exists msg, fst (PReLU.forward Functional.prelu 0 rank1_world) =
                  Raise (AssertionError msg)) <->
     ~ legal_weight example_input channel_weight).
Proof.
  split; [apply rank1_world_illegal|]. split; [apply rank1_world_forward|].
  intros [_ H]. destruct (H rank1_world_illegal) as [msg Hm].
  rewrite rank1_world_forward in Hm. discriminate Hm.
Qed.

(** C1, amended.  For a PReLU instance and an input tensor, [forward] fails
    at its [assert] statement, before the operator, if and only if the
    weight's shape is neither (1,) nor (1, C, 1, 1), C being the size of the
    input's dimension 1.  The failure is the AssertionError of the statement
    when the input has a dimension 1, and the IndexError of reading
    [inputs.shape[1]] when it has none; the state is left as it was.  When
    the weight's shape is legal, [forward] returns prelu(inputs, weight):
    if the operator returns [out], the result is a reference to a new
    tensor [out] behind the existing ones, and if the operator raises,
    [forward] raises the same exception. *)
Theorem C1_forward_fails_iff_weight_shape_illegal
  (prelu : Tensor -> Tensor -> outcome Tensor)
  (w : world PReLU.t) (inputs : ref) (x wt : Tensor) :
  nth_error (heap w) inputs = Some x ->
  nth_error (heap w) (PReLU.weight (self w)) = Some wt ->
  ((exists e, PReLU.forward_assert inputs w = (Raise e, w)) <->
   ~ legal_weight x wt) /\
  (~ legal_weight x wt ->
   PReLU.forward prelu inputs w =
   (Raise (match nth_error (shape x) 1 with
           | Some _ => AssertionError "invalid weight's shape"
           | None => IndexError "tuple index out of range"
           end), w)) /\
  (legal_weight x wt ->
   (forall out, prelu x wt = Return out ->
      PReLU.forward prelu inputs w =
      (Return (length (heap w)), World (self w) (heap w ++ [out]))) /\
   (forall e, prelu x wt = Raise e ->
      PReLU.forward prelu inputs w = (Raise e, w))).
Proof.
  intros Hx Hw. split; [|split].
  - split.
    + intros [e He] Hl.
      apply (legal_weight_dec w inputs x wt Hx Hw) in Hl. congruence.
    + intros Hl.
      destruct (illegal_weight_raises w inputs x wt Hx Hw Hl) as [e [He _]].
      eauto.
  - now apply illegal_weight_exception.
  - intros Hl.
    assert (Hf : PReLU.forward prelu inputs w = yield (prelu x wt) w).
    { apply forward_after_assert; try assumption.
      now apply (legal_weight_dec w inputs x wt Hx Hw). }
    split; intros r Hr; rewrite Hf, Hr; reflexivity.
Qed.

Lemma C1_forward_fails_iff_weight_shape_illegal_witness :
  PReLU.forward Functional.prelu 0
    (World (PReLU.mk 3 1) [nchw_input; channel_weight]) =
  (Return 2%nat,
   World (PReLU.mk 3 1)
     ([nchw_input; channel_weight] ++
      [mkTensor (shape nchw_input)
         (Functional.per_channel (data channel_weight) 3 16 (data nchw_input))])) /\
  PReLU.forward Functional.prelu 0 rank1_world =
  (Raise (IndexError "tuple index out of range"), rank1_world).
Proof.
  split.
  - destruct (C1_forward_fails_iff_weight_shape_illegal Functional.prelu
                (World (PReLU.mk 3 1) [nchw_input; channel_weight]) 0%nat
                nchw_input channel_weight eq_refl eq_refl) as [_ [_ H]].
    assert (Hl : legal_weight nchw_input channel_weight)
      by (right; exists 3%Z; split; reflexivity).
    destruct (H Hl) as [Hr _]. apply Hr. reflexivity.
  - destruct (C1_forward_fails_iff_weight_shape_illegal Functional.prelu
                rank1_world 0%nat example_input channel_weight
                eq_refl eq_refl) as [_ [H _]].
    exact (H rank1_world_illegal).
Defined.

(** C7 as it is written fails on the same input: [forward] fails on a
    weight whose shape is illegal for the input, and the failure is not the
    assertion with its text about the weight's shape; it is an IndexError
    whose message is "tuple index out of range". *)
Lemma C7_counterexample :
  ~ legal_weight example_input channel_weight /\
  fst (PReLU.forward Functional.prelu 0 rank1_world) =
    Raise (IndexError "tuple index out of range") /\
  fst (PReLU.forward Functional.prelu 0 rank1_world) <>
    Raise (AssertionError "invalid weight's shape").
Proof.
  split; [apply rank1_world_illegal|].
  rewrite rank1_world_forward. split; [reflexivity|discriminate].
Qed.

(** C7, amended.  When [forward] fails on an illegal weight shape, the
    failure carries a fixed text and the state is left as it was: the
    AssertionError "invalid weight's shape" when the input has a dimension
    1, the IndexError "tuple index out of range" when it has none.  The
    text depends on nothing else: it names the weight's shape as invalid
    without telling the shape. *)
Theorem C7_illegal_weight_shape_message
  (prelu : Tensor -> Tensor -> outcome Tensor)
  (w : world PReLU.t) (inputs : ref) (x wt : Tensor) :
  nth_error (heap w) inputs = Some x ->
  nth_error (heap w) (PReLU.weight (self w)) = Some wt ->
  ~ legal_weight x wt ->
  (forall c, nth_error (shape x) 1 = Some c ->
     PReLU.forward prelu inputs w =
     (Raise (AssertionError "invalid weight's shape"), w)) /\
  (nth_error (shape x) 1 = None ->
     PReLU.forward prelu inputs w =
     (Raise (IndexError "tuple index out of range"), w)).
Proof.
  intros Hx Hw Hl.
  pose proof (illegal_weight_exception prelu w inputs x wt Hx Hw Hl) as H.
  split.
  - intros c Hc. now rewrite Hc in H.
  - intros Hc. now rewrite Hc in H.
Qed.

Lemma C7_illegal_weight_shape_message_witness :
  PReLU.forward Functional.prelu 0
    (World (PReLU.mk 5 1) [nchw_input; filled [1; 5; 1; 1]%Z 0.25%R]) =
  (Raise (AssertionError "invalid weight's shape"),
   World (PReLU.mk 5 1) [nchw_input; filled [1; 5; 1; 1]%Z 0.25%R]) /\
  PReLU.forward Functional.prelu 0 rank1_world =
  (Raise (IndexError "tuple index out of range"), rank1_world).
Proof.
  split.
  - apply (C7_illegal_weight_shape_message Functional.prelu
             (World (PReLU.mk 5 1) [nchw_input; filled [1; 5; 1; 1]%Z 0.25%R])
             0%nat nchw_input (filled [1; 5; 1; 1]%Z 0.25%R) eq_refl eq_refl)
      with (c := 3%Z).
    + intros [H|[c [Hc H]]]; [discriminate H|].
      injection Hc as <-. discriminate H.
    + reflexivity.
  - apply (C7_illegal_weight_shape_message Functional.prelu
             rank1_world 0%nat example_input channel_weight eq_refl eq_refl
             rank1_world_illegal).
    reflexivity.
Defined.

(** ** PReLU: the short circuit on a weight of shape (1,) *)

Lemma forward_assert_scalar_weight (w : world PReLU.t) (inputs : ref) (wt : Tensor) :
  nth_error (heap w) (PReLU.weight (self w)) = Some wt ->
  shape wt = [1]%Z ->
  PReLU.forward_assert inputs w = (Return tt, w).
Proof.
  intros Hw Hs.
  unfold PReLU.forward_assert, bind, getattr, load; cbv beta.
  rewrite Hw, Hs. reflexivity.
Qed.

Lemma prelu_scalar_weight (x wt : Tensor) (a : R) :
  shape wt = [1]%Z -> data wt = [a] ->
  Functional.prelu x wt =
  Return (mkTensor (shape x) (map (Functional.prelu_elt a) (data x))).
Proof.
  intros Hs Hd. unfold Functional.prelu. rewrite Hs, Hd. reflexivity.
Qed.

(** C9.  With a weight of shape (1,) the check passes without the input
    being looked at: the [assert] statement returns for every reference
    [inputs], and [forward] is then the operator call for an input of any
    shape, rank 0 and rank 1 included.  With a weight of shape (1, n, 1, 1)
    the check can pass only for an input of at least 2 dimensions; on an
    input of fewer, reading [inputs.shape[1]] raises IndexError. *)
Theorem C9_scalar_weight_any_rank
  (prelu : Tensor -> Tensor -> outcome Tensor)
  (w : world PReLU.t) (inputs : ref) (wt : Tensor) :
  nth_error (heap w) (PReLU.weight (self w)) = Some wt ->
  (shape wt = [1]%Z ->
   PReLU.forward_assert inputs w = (Return tt, w) /\
   forall x, nth_error (heap w) inputs = Some x ->
     PReLU.forward prelu inputs w = yield (prelu x wt) w) /\
  (forall n x, shape wt = [1; n; 1; 1]%Z ->
     nth_error (heap w) inputs = Some x ->
     (PReLU.forward_assert inputs w = (Return tt, w) ->
      (2 <= length (shape x))%nat) /\
     ((length (shape x) < 2)%nat ->
      PReLU.forward prelu inputs w =
      (Raise (IndexError "tuple index out of range"), w))).
Proof.
  intros Hw. split.
  - intros Hs.
    pose proof (forward_assert_scalar_weight w inputs wt Hw Hs) as Ha.
    split; [assumption|]. intros x Hx.
    now apply forward_after_assert.
  - intros n x Hs Hx.
    pose proof (forward_assert_eval w inputs x wt Hx Hw) as He.
    rewrite Hs in He. simpl tuple_eqb in He.
    assert (Hnone : (length (shape x) < 2)%nat -> nth_error (shape x) 1 = None)
      by (intros Hl; apply nth_error_None; lia).
    split.
    + intros Hok. destruct (le_lt_dec 2 (length (shape x))) as [|Hl]; [assumption|].
      rewrite (Hnone Hl), Hok in He. discriminate.
    + intros Hl. apply forward_assert_raises. now rewrite (Hnone Hl) in He.
Qed.

Lemma C9_scalar_weight_any_rank_witness :
  (let w := PReLU_world (N := example_numpy) 1 0.25 [mkTensor [] [2%R]] in
   PReLU.forward_assert 0 w = (Return tt, w) /\
   PReLU.forward Functional.prelu 0 w =
   yield (Functional.prelu (mkTensor [] [2%R]) (mkTensor [1]%Z [0.25%R])) w) /\
  (let w := PReLU_world (N := example_numpy) 3 0.25 [example_input] in
   PReLU.forward Functional.prelu 0 w =
   (Raise (IndexError "tuple index out of range"), w)).
Proof.
  split; intros w.
  - destruct (C9_scalar_weight_any_rank Functional.prelu w 0%nat
                (mkTensor [1]%Z [0.25%R]) eq_refl) as [H _].
    destruct (H eq_refl) as [Ha Hf].
    split; [exact Ha | exact (Hf (mkTensor [] [2%R]) eq_refl)].
  - apply (C9_scalar_weight_any_rank Functional.prelu w 0%nat
             (filled [1; 3; 1; 1]%Z (@np_float32 example_numpy 0.25%R))
             eq_refl)
      with (n := 3%Z) (x := example_input).
    + reflexivity.
    + reflexivity.
    + simpl. lia.
Defined.

(** ** PReLU: the constructor *)

Lemma numel_1n11 (n : Z) : numel [1; n; 1; 1]%Z = n.
Proof. unfold numel, fold_right. lia. Qed.

Section Rounding.

Local Open Scope R_scope.

Lemma ln_2_pos : 0 < ln 2.
Proof. rewrite <- ln_1. apply ln_increasing; lra. Qed.

Lemma ln_powerRZ_2 (e : Z) : ln (powerRZ 2 e) = IZR e * ln 2.
Proof. rewrite powerRZ_Rpower by lra. unfold Rpower. apply ln_exp. Qed.

Lemma binade_spec (e : Z) (r : R) :
  powerRZ 2 e <= Rabs r < powerRZ 2 (e + 1) -> binade r = e.
Proof.
  intros [Hlo Hhi]. unfold binade. symmetry. apply Int_part_spec.
  pose proof ln_2_pos as HL.
  pose proof (powerRZ_lt 2 e ltac:(lra)) as Hp.
  assert (H1 : IZR e * ln 2 <= ln (Rabs r)).
  { rewrite <- ln_powerRZ_2. destruct Hlo as [Hlt|Heq].
    - left. apply ln_increasing; assumption.
    - right. now rewrite Heq. }
  assert (H2 : ln (Rabs r) < (IZR e + 1) * ln 2).
  { rewrite <- plus_IZR, <- ln_powerRZ_2. apply ln_increasing; lra. }
  set (y := ln (Rabs r)) in *.
  assert (Hy : y / ln 2 * ln 2 = y) by (field; lra).
  split; nra.
Qed.


Lemma nearest_even_below (f : Z) (r : R) :
  IZR f <= r < IZR f + 1 / 2 -> nearest_even r = f.
Proof.
  intros H. unfold nearest_even.
  assert (Hf : Int_part r = f) by (symmetry; apply Int_part_spec; lra).
  rewrite Hf. destruct (Rlt_dec (r - IZR f) (1 / 2)); [reflexivity|lra].
Qed.


(** 0.25 is a binary32 number. *)
Lemma round_binary32_quarter : round_binary32 0.25 = 0.25.
Proof.
  unfold round_binary32.
  assert (Hb : binade 0.25 = (-2)%Z).
  { apply binade_spec. rewrite Rabs_pos_eq by lra. simpl. lra. }
  rewrite Hb. change (Z.max (-2) (-126) - 23)%Z with (-25)%Z.
  assert (Hq : powerRZ 2 (-25) = / 33554432) by (simpl; lra).
  rewrite Hq, (nearest_even_below 8388608); lra.
Qed.

End Rounding.

Lemma np_full_1n11 {N : Numpy} (n : Z) (v : R) (dtype : R -> R) :
  (1 < n)%Z ->
  np_full [1; n; 1; 1]%Z v dtype =
  if (np_capacity <? n)%Z then Raise (MemoryError "Unable to allocate array")
  else Return (mkTensor [1; n; 1; 1]%Z (repeat (dtype v) (Z.to_nat n))).
Proof.
  intros Hn. unfold np_full, filled. rewrite numel_1n11.
  assert (Hd : forallb (Z.leb 0) [1; n; 1; 1]%Z = true).
  { cbn [forallb]. assert ((0 <=? n)%Z = true) as -> by (apply Z.leb_le; lia).
    reflexivity. }
  now rewrite Hd.
Qed.

(** What [PReLU.__init__] does in its two branches. *)
Lemma PReLU_init_scalar {N : Numpy} (num_parameters : Z) (init : R)
  (w0 : world PReLU.t) :
  (num_parameters <= 1)%Z ->
  PReLU.__init__ num_parameters init w0 =
  (Return tt,
   World (PReLU.mk num_parameters (length (heap w0)))
     (heap w0 ++ [mkTensor [1]%Z [init]])).
Proof.
  intros Hn. unfold PReLU.__init__, bind, setattr, alloc; cbv beta.
  destruct (Z.gtb_spec num_parameters 1); [lia|reflexivity].
Qed.

Lemma PReLU_init_channels {N : Numpy} (num_parameters : Z) (init : R)
  (w0 : world PReLU.t) :
  (1 < num_parameters <= np_capacity)%Z ->
  PReLU.__init__ num_parameters init w0 =
  (Return tt,
   World (PReLU.mk num_parameters (length (heap w0)))
     (heap w0 ++ [mkTensor [1; num_parameters; 1; 1]%Z
                    (repeat (np_float32 init) (Z.to_nat num_parameters))])).
Proof.
  intros Hn. unfold PReLU.__init__, bind, setattr; cbv beta.
  destruct (Z.gtb_spec num_parameters 1); [|lia].
  rewrite np_full_1n11 by lia.
  destruct (Z.ltb_spec np_capacity num_parameters); [lia|reflexivity].
Qed.

Lemma PReLU_init_refused {N : Numpy} (num_parameters : Z) (init : R)
  (w0 : world PReLU.t) :
  (1 < num_parameters)%Z -> (np_capacity < num_parameters)%Z ->
  PReLU.__init__ num_parameters init w0 =
  (Raise (MemoryError "Unable to allocate array"),
   World (PReLU.set_num_parameters num_parameters (self w0)) (heap w0)).
Proof.
  intros Hn Hc. unfold PReLU.__init__, bind, setattr; cbv beta.
  destruct (Z.gtb_spec num_parameters 1); [|lia].
  rewrite np_full_1n11 by lia.
  destruct (Z.ltb_spec np_capacity num_parameters); [reflexivity|lia].
Qed.




(** C10.  For [num_parameters <= 0], [PReLU.__init__] returns normally: it
    takes the branch of [num_parameters <= 1], and allocates as weight the
    tensor of shape (1,) holding [init], at the same reference and with the
    same heap as for [num_parameters = 1]; the value stored in
    [self.num_parameters] is the argument as given. *)
Theorem C10_init_nonpositive_num_parameters {N : Numpy}
  (num_parameters : Z) (init : R)
  (w0 : world PReLU.t) :
  (num_parameters <= 0)%Z ->
  let r := PReLU.__init__ num_parameters init w0 in
  let r1 := PReLU.__init__ 1 init w0 in
  fst r = Return tt /\
  PReLU.num_parameters (self (snd r)) = num_parameters /\
  heap (snd r) = heap w0 ++ [mkTensor [1]%Z [init]] /\
  nth_error (heap (snd r)) (PReLU.weight (self (snd r))) =
    Some (mkTensor [1]%Z [init]) /\
  heap (snd r) = heap (snd r1) /\
  PReLU.weight (self (snd r)) = PReLU.weight (self (snd r1)).
Proof.
  intros Hn r r1. subst r r1.
  unfold PReLU.__init__, bind, setattr, alloc; cbv beta.
  destruct (Z.gtb_spec num_parameters 1) as [E|E]; [lia|].
  cbn. repeat split; try reflexivity.
  rewrite nth_error_app2 by lia. now rewrite Nat.sub_diag.
Qed.

Lemma C10_init_nonpositive_num_parameters_witness :
  heap (PReLU_world (N := example_numpy) (-2) 0.25 []) =
  [mkTensor [1]%Z [0.25%R]].
Proof.
  apply (C10_init_nonpositive_num_parameters (N := example_numpy) (-2) 0.25
           (World blank_PReLU [])).
  lia.
Defined.

(** ** No [forward] writes *)

Lemma forward_assert_readonly (inputs : ref) :
  readonly (PReLU.forward_assert inputs).
Proof.
  unfold PReLU.forward_assert.
  repeat (apply readonly_bind; [|intros ?]); auto 6 with frame_db.
Qed.

Lemma PReLU_forward_frame (prelu : Tensor -> Tensor -> outcome Tensor)
  (inputs : ref) : frame (PReLU.forward prelu inputs).
Proof.
  unfold PReLU.forward.
  apply frame_bind; [apply forward_assert_readonly|intros _].
  auto 8 with frame_db.
Qed.

(** A [forward] that returns has found both of its operands in the heap. *)
Lemma PReLU_forward_returns (prelu : Tensor -> Tensor -> outcome Tensor)
  (inputs : ref) (w w' : world PReLU.t) (r : ref) :
  PReLU.forward prelu inputs w = (Return r, w') ->
  (exists x, nth_error (heap w) inputs = Some x) /\
  (exists wt, nth_error (heap w) (PReLU.weight (self w)) = Some wt).
Proof.
  unfold PReLU.forward, bind at 1.
  pose proof (forward_assert_readonly inputs w) as Hro.
  destruct (PReLU.forward_assert inputs w) as [[[]|e] w1]; simpl in Hro; subst w1;
    [|discriminate].
  unfold bind, getattr, load; cbv beta.
  destruct (nth_error (heap w) inputs) as [x|]; [|discriminate].
  destruct (nth_error (heap w) (PReLU.weight (self w))) as [wt|]; [|discriminate].
  eauto.
Qed.

(** C8.  Every layer's [forward] is a frame computation: when it returns,
    the receiver's attributes are as before and the heap is the old heap
    with new tensors behind it, so that the input and every other existing
    tensor is as before; when it raises, the state is exactly the state
    before.  For PReLU in particular: [self] is unchanged, the tensor at
    [self.weight] and the tensor at [inputs] are the same after as before,
    and a failed call leaves the whole state unchanged. *)
Theorem C8_forward_leaves_state
  (softmax : Tensor -> option Z -> outcome Tensor)
  (sigmoid silu gelu relu : Tensor -> outcome Tensor)
  (prelu : Tensor -> Tensor -> outcome Tensor)
  (leaky_relu elu : Tensor -> R -> outcome Tensor)
  (inputs : ref) :
  frame (Softmax.forward softmax inputs) /\
  frame (Sigmoid.forward sigmoid inputs) /\
  frame (SiLU.forward silu inputs) /\
  frame (GELU.forward gelu inputs) /\
  frame (ReLU.forward relu inputs) /\
  frame (PReLU.forward prelu inputs) /\
  frame (LeakyReLU.forward leaky_relu inputs) /\
  frame (ELU.forward elu inputs) /\
  forall w : world PReLU.t,
    let r := PReLU.forward prelu inputs w in
    self (snd r) = self w /\
    nth_error (heap (snd r)) (PReLU.weight (self (snd r))) =
      nth_error (heap w) (PReLU.weight (self w)) /\
    nth_error (heap (snd r)) inputs = nth_error (heap w) inputs /\
    forall e, fst r = Raise e -> snd r = w.
Proof.
  repeat match goal with |- frame _ /\ _ => split end;
    try (unfold Softmax.forward, Sigmoid.forward, SiLU.forward, GELU.forward,
           ReLU.forward, LeakyReLU.forward, ELU.forward;
         auto 8 with frame_db; fail).
  - apply PReLU_forward_frame.
  - intros w r. subst r.
    pose proof (PReLU_forward_frame prelu inputs) as Hf.
    pose proof (frame_self _ w Hf) as Hs.
    split; [assumption|]. rewrite Hs.
    destruct (PReLU.forward prelu inputs w) as [[r|e] w'] eqn:E.
    + destruct (PReLU_forward_returns prelu inputs w w' r E) as [[x Hx] [wt Hwt]].
      pose proof (frame_heap _ w _ _ Hf Hx) as Hx'.
      pose proof (frame_heap _ w _ _ Hf Hwt) as Hwt'.
      rewrite E in Hx', Hwt'. simpl in *.
      rewrite Hx, Hwt, Hx', Hwt'. repeat split. discriminate.
    + pose proof (frame_raise _ w e Hf) as Hr. rewrite E in Hr.
      simpl in *. rewrite (Hr eq_refl). repeat split.
Qed.

(** ** The element-wise layers on the modelled operators *)

Section Elementwise.

Local Open Scope R_scope.

Lemma prelu_elt_nonneg (a x : R) : 0 <= x -> Functional.prelu_elt a x = x.
Proof.
  intros H. unfold Functional.prelu_elt.
  rewrite Rmax_left, Rmin_right by assumption. ring.
Qed.

Lemma prelu_elt_neg (a x : R) : x < 0 -> Functional.prelu_elt a x = a * x.
Proof.
  intros H. unfold Functional.prelu_elt.
  rewrite Rmax_right, Rmin_left by lra. ring.
Qed.

Lemma leaky_relu_elt_nonneg (s x : R) :
  0 <= x -> Functional.leaky_relu_elt s x = x.
Proof.
  intros H. unfold Functional.leaky_relu_elt.
  rewrite Rmax_right, Rmin_left by assumption. ring.
Qed.

Lemma leaky_relu_elt_neg (s x : R) :
  x < 0 -> Functional.leaky_relu_elt s x = s * x.
Proof.
  intros H. unfold Functional.leaky_relu_elt.
  rewrite Rmax_left, Rmin_right by lra. ring.
Qed.

Lemma elu_elt_pos (alpha x : R) : 0 < x -> Functional.elu_elt alpha x = x.
Proof.
  intros H. unfold Functional.elu_elt.
  destruct (Rlt_dec 0 x); [reflexivity | contradiction].
Qed.

Lemma elu_elt_nonpos (alpha x : R) :
  x <= 0 -> Functional.elu_elt alpha x = alpha * (exp x - 1).
Proof.
  intros H. unfold Functional.elu_elt.
  destruct (Rlt_dec 0 x); [lra | reflexivity].
Qed.

End Elementwise.

Lemma nth_error_map_Some {A B} (f : A -> B) (l : list A) (i : nat) (a : A) :
  nth_error l i = Some a -> nth_error (map f l) i = Some (f a).
Proof. intros H. rewrite nth_error_map, H. reflexivity. Qed.

(** C4.  A LeakyReLU layer constructed with [negative_slope = slope] and
    applied to an input returns a new tensor of the input's shape whose
    element at every position is [x] when the input's element [x] there is
    [>= 0], and [slope * x] when it is [< 0]. *)
Theorem C4_leaky_relu_by_cases (slope : R) (w0 : world LeakyReLU.t)
  (inputs : ref) (x : Tensor) :
  nth_error (heap w0) inputs = Some x ->
  exists out,
    (LeakyReLU.__init__ slope ;;
     LeakyReLU.forward Functional.leaky_relu inputs) w0 =
    (Return (length (heap w0)),
     World (LeakyReLU.mk slope) (heap w0 ++ [out])) /\
    shape out = shape x /\
    length (data out) = length (data x) /\
    forall i xi, nth_error (data x) i = Some xi ->
      exists yi, nth_error (data out) i = Some yi /\
                 ((0 <= xi)%R -> yi = xi) /\
                 ((xi < 0)%R -> yi = (slope * xi)%R).
Proof.
  intros Hx.
  exists (mkTensor (shape x) (map (Functional.leaky_relu_elt slope) (data x))).
  split; [|split; [reflexivity|split; [apply length_map|]]].
  - unfold LeakyReLU.__init__, LeakyReLU.forward, bind, setattr, load, getattr;
      cbn [self heap]. rewrite Hx. reflexivity.
  - intros i xi Hi. exists (Functional.leaky_relu_elt slope xi).
    split; [now apply nth_error_map_Some|].
    split; [apply leaky_relu_elt_nonneg | apply leaky_relu_elt_neg].
Qed.

Lemma C4_leaky_relu_by_cases_witness :
  exists out,
    (LeakyReLU.__init__ 0.01 ;;
     LeakyReLU.forward Functional.leaky_relu 0) (World blank_LeakyReLU [example_input]) =
    (Return 1%nat, World (LeakyReLU.mk 0.01) ([example_input] ++ [out])) /\
    shape out = [3]%Z.
Proof.
  destruct (C4_leaky_relu_by_cases 0.01 (World blank_LeakyReLU [example_input])
              0%nat example_input eq_refl) as [out [H1 [H2 _]]].
  exists out. split; assumption.
Defined.

(** C5.  An ELU layer constructed with [alpha] and applied to an input
    returns a new tensor of the input's shape whose element at every
    position is [x] when the input's element [x] there is [> 0], and
    [alpha * (exp x - 1)] when it is [<= 0]. *)
Theorem C5_elu_by_cases (alpha : R) (w0 : world ELU.t)
  (inputs : ref) (x : Tensor) :
  nth_error (heap w0) inputs = Some x ->
  exists out,
    (ELU.__init__ alpha ;; ELU.forward Functional.elu inputs) w0 =
    (Return (length (heap w0)), World (ELU.mk alpha) (heap w0 ++ [out])) /\
    shape out = shape x /\
    length (data out) = length (data x) /\
    forall i xi, nth_error (data x) i = Some xi ->
      exists yi, nth_error (data out) i = Some yi /\
                 ((0 < xi)%R -> yi = xi) /\
                 ((xi <= 0)%R -> yi = (alpha * (exp xi - 1))%R).
Proof.
  intros Hx.
  exists (mkTensor (shape x) (map (Functional.elu_elt alpha) (data x))).
  split; [|split; [reflexivity|split; [apply length_map|]]].
  - unfold ELU.__init__, ELU.forward, bind, setattr, load, getattr;
      cbn [self heap]. rewrite Hx. reflexivity.
  - intros i xi Hi. exists (Functional.elu_elt alpha xi).
    split; [now apply nth_error_map_Some|].
    split; [apply elu_elt_pos | apply elu_elt_nonpos].
Qed.

Lemma C5_elu_by_cases_witness :
  exists out,
    (ELU.__init__ 1 ;; ELU.forward Functional.elu 0)
      (World blank_ELU [example_input]) =
    (Return 1%nat, World (ELU.mk 1) ([example_input] ++ [out])) /\
    shape out = [3]%Z.
Proof.
  destruct (C5_elu_by_cases 1 (World blank_ELU [example_input])
              0%nat example_input eq_refl) as [out [H1 [H2 _]]].
  exists out. split; assumption.
Defined.

(** C6.  [PReLU()] with its default arguments, applied to the vector
    [-1.2, -3.7, 2.7], returns normally; the weight it allocated is the
    tensor of shape (1,) holding 0.25 and the result is a new tensor, the
    vector [-0.3, -0.925, 2.7]. *)
Theorem C6_prelu_documented_example {N : Numpy}
  (w0 : world PReLU.t) (inputs : ref) :
  nth_error (heap w0) inputs = Some example_input ->
  (PReLU.__init__ PReLU.default_num_parameters PReLU.default_init ;;
   PReLU.forward Functional.prelu inputs) w0 =
  (Return (S (length (heap w0))),
   World (PReLU.mk 1 (length (heap w0)))
     (heap w0 ++ [mkTensor [1]%Z [0.25%R]]
             ++ [mkTensor [3]%Z [(-0.3)%R; (-0.925)%R; 2.7%R]])).
Proof.
  intros Hx.
  unfold bind at 1.
  change (PReLU.__init__ PReLU.default_num_parameters PReLU.default_init w0)
    with (Return tt, World (PReLU.mk 1 (length (heap w0)))
                       (heap w0 ++ [mkTensor [1]%Z [0.25%R]])).
  cbv beta iota.
  set (w := World _ _).
  assert (Hin : nth_error (heap w) inputs = Some example_input).
  { subst w; cbn [heap]. rewrite nth_error_app1; [assumption|].
    apply nth_error_Some; congruence. }
  assert (Hwt : nth_error (heap w) (PReLU.weight (self w)) =
                Some (mkTensor [1]%Z [0.25%R])).
  { subst w; cbn [heap self PReLU.weight].
    rewrite nth_error_app2 by lia. now rewrite Nat.sub_diag. }
  rewrite (forward_after_assert Functional.prelu w inputs _ _ Hin Hwt
             (forward_assert_scalar_weight w inputs
                (mkTensor [1]%Z [0.25%R]) Hwt eq_refl)).
  rewrite (prelu_scalar_weight example_input (mkTensor [1]%Z [0.25%R])
             0.25%R eq_refl eq_refl).
  subst w; unfold yield, alloc, example_input; cbn [heap self shape data map].
  rewrite length_app, Nat.add_1_r, <- app_assoc.
  rewrite !prelu_elt_neg by lra. rewrite prelu_elt_nonneg by lra.
  repeat f_equal; lra.
Qed.

Lemma C6_prelu_documented_example_witness :
  (PReLU.__init__ (N := example_numpy)
     PReLU.default_num_parameters PReLU.default_init ;;
   PReLU.forward Functional.prelu 0) (World blank_PReLU [example_input]) =
  (Return 2%nat,
   World (PReLU.mk 1 1)
     [example_input; mkTensor [1]%Z [0.25%R];
      mkTensor [3]%Z [(-0.3)%R; (-0.925)%R; 2.7%R]]).
Proof.
  apply (C6_prelu_documented_example (N := example_numpy)
           (World blank_PReLU [example_input]) 0%nat).
  reflexivity.
Defined.

(** ** Softmax on the modelled operator *)

Section Rsum_facts.

Local Open Scope R_scope.

Lemma Rsum_map_div {A} (f : A -> R) (s : R) (l : list A) :
  Rsum (map (fun a => f a / s) l) = Rsum (map f l) / s.
Proof.
  induction l as [|a l IH]; simpl.
  - unfold Rdiv; ring.
  - rewrite IH. unfold Rdiv; ring.
Qed.

Lemma Rsum_nonneg (l : list R) :
  (forall y, In y l -> 0 < y) -> 0 <= Rsum l.
Proof.
  induction l as [|a l IH]; simpl; intros Hp; [lra|].
  assert (0 < a) by (apply Hp; now left).
  assert (0 <= Rsum l) by (apply IH; intros; apply Hp; now right).
  lra.
Qed.

Lemma Rsum_ge_member (l : list R) (e : R) :
  (forall y, In y l -> 0 < y) -> In e l -> e <= Rsum l.
Proof.
  induction l as [|a l IH]; simpl; intros Hp Hin; [contradiction|].
  assert (0 < a) by (apply Hp; now left).
  assert (Hl : forall y, In y l -> 0 < y) by (intros; apply Hp; now right).
  destruct Hin as [->|Hin].
  - pose proof (Rsum_nonneg l Hl). lra.
  - specialize (IH Hl Hin). lra.
Qed.

Lemma exps_positive (d : list R) (qs : list nat) (y : R) :
  In y (map (fun q => exp (nth q d 0)) qs) -> 0 < y.
Proof.
  intros H. apply in_map_iff in H. destruct H as [q [<- _]]. apply exp_pos.
Qed.

End Rsum_facts.

Section Row_major.

Lemma size_app (a b : list nat) :
  size (a ++ b) = size a * size b.
Proof.
  induction a as [|x a IH]; simpl; [lia|].
  unfold size in *. simpl. rewrite IH. lia.
Qed.

Lemma numel_nonneg (s : list Z) :
  Forall (fun d => (0 <= d)%Z) s -> (0 <= numel s)%Z.
Proof.
  induction 1 as [|d s Hd _ IH]; unfold numel in *; simpl; [lia|].
  apply Z.mul_nonneg_nonneg; assumption.
Qed.

Lemma numel_to_nat (s : list Z) :
  Forall (fun d => (0 <= d)%Z) s ->
  Z.to_nat (numel s) = size (map Z.to_nat s).
Proof.
  induction 1 as [|d s Hd Hs IH]; [reflexivity|].
  change (numel (d :: s)) with (d * numel s)%Z.
  change (size (map Z.to_nat (d :: s)))
    with (Z.to_nat d * size (map Z.to_nat s)).
  rewrite Z2Nat.inj_mul, IH; auto using numel_nonneg.
Qed.

Lemma split_at {A} (k : nat) (l : list A) (d : A) :
  k < length l -> l = firstn k l ++ nth k l d :: skipn (S k) l.
Proof.
  revert l; induction k as [|k IH]; intros [|a l] Hk; simpl in *; try lia.
  - reflexivity.
  - f_equal. apply IH. lia.
Qed.

Lemma Forall2_firstn {A B} (P : A -> B -> Prop) (k : nat) (l : list A) (l' : list B) :
  Forall2 P l l' -> Forall2 P (firstn k l) (firstn k l').
Proof.
  intros H; revert k; induction H; intros [|k]; simpl; constructor; auto.
Qed.

Lemma Forall2_skipn {A B} (P : A -> B -> Prop) (k : nat) (l : list A) (l' : list B) :
  Forall2 P l l' -> Forall2 P (skipn k l) (skipn k l').
Proof.
  intros H; revert k; induction H; intros [|k]; simpl; auto.
Qed.

Lemma Forall2_lt_nth (idx dims : list nat) (k : nat) :
  Forall2 lt idx dims -> k < length dims -> nth k idx 0 < nth k dims 0.
Proof.
  intros H; revert k; induction H; intros [|k] Hk; simpl in *; try lia.
  apply IHForall2. lia.
Qed.

Lemma flat_index_lt (dims idx : list nat) :
  Forall2 lt idx dims -> flat_index dims idx < size dims.
Proof.
  induction 1 as [|i d idx dims Hi _ IH]; simpl; [unfold size; simpl; lia|].
  change (size (d :: dims)) with (d * size dims).
  nia.
Qed.

Lemma flat_index_app (pre post ipre ipost : list nat) (n j : nat) :
  length pre = length ipre ->
  flat_index (pre ++ n :: post) (ipre ++ j :: ipost) =
  flat_index pre ipre * (n * size post)
  + j * size post + flat_index post ipost.
Proof.
  revert ipre; induction pre as [|a pre IH]; intros [|i ipre] Hl;
    simpl in Hl; try discriminate.
  - simpl. lia.
  - cbn [app flat_index]. rewrite IH by lia.
    rewrite size_app.
    change (size (n :: post)) with (n * size post).
    nia.
Qed.

(** The positions along axis [k] through a multi-index. *)
Lemma flat_index_set_coord (dims idx : list nat) (k j : nat) :
  Forall2 lt idx dims -> k < length dims ->
  let n := nth k dims 0 in
  let inner := size (skipn (S k) dims) in
  let o := flat_index (firstn k dims) (firstn k idx) in
  let i := flat_index (skipn (S k) dims) (skipn (S k) idx) in
  flat_index dims (set_coord k j idx) =
    o * (n * inner) + j * inner + i /\
  o < size (firstn k dims) /\ i < inner /\ 0 < n.
Proof.
  intros H Hk n inner o i.
  pose proof (Forall2_length H) as Hlen.
  split; [|split; [|split]].
  - rewrite (split_at k dims 0 Hk) at 1. unfold set_coord.
    apply flat_index_app. rewrite !length_firstn. lia.
  - apply flat_index_lt. now apply Forall2_firstn.
  - apply flat_index_lt. now apply Forall2_skipn.
  - pose proof (Forall2_lt_nth idx dims k H Hk). subst n. lia.
Qed.

Lemma line_member (n inner p : nat) :
  0 < n -> 0 < inner -> In p (line n inner p).
Proof.
  intros Hn Hi. unfold line. apply in_map_iff.
  exists ((p / inner) mod n). split.
  - pose proof (Nat.div_mod_eq p (n * inner)) as H1.
    pose proof (Nat.Div0.mod_mul_r p inner n) as H2.
    rewrite (Nat.mul_comm inner n) in H2. lia.
  - apply in_seq. pose proof (Nat.mod_upper_bound (p / inner) n). lia.
Qed.

Lemma line_of_coords (n inner o j i : nat) :
  j < n -> i < inner ->
  line n inner (o * (n * inner) + j * inner + i) =
  map (fun j' => o * (n * inner) + j' * inner + i) (seq 0 n).
Proof.
  intros Hj Hi. unfold line.
  assert (H1 : (o * (n * inner) + j * inner + i) / (n * inner) = o).
  { symmetry. apply Nat.div_unique with (r := j * inner + i); nia. }
  assert (H2 : (o * (n * inner) + j * inner + i) mod inner = i).
  { symmetry. apply Nat.mod_unique with (q := o * n + j); nia. }
  rewrite H1, H2. reflexivity.
Qed.

Lemma coords_in_range (outer n inner o j i : nat) :
  o < outer -> j < n -> i < inner ->
  o * (n * inner) + j * inner + i < outer * (n * inner).
Proof.
  intros Ho Hj Hi.
  assert (j * inner + i < n * inner) by nia.
  assert ((o + 1) * (n * inner) <= outer * (n * inner))
    by (apply Nat.mul_le_mono_r; lia).
  lia.
Qed.

Lemma nth_softmax_data (n inner q : nat) (d : list R) :
  q < length d ->
  nth q (Functional.softmax_data n inner d) 0%R =
  (exp (nth q d 0%R) /
   Rsum (map (fun q' => exp (nth q' d 0%R)) (line n inner q)))%R.
Proof.
  intros Hq. unfold Functional.softmax_data.
  set (f := fun p : nat => _).
  rewrite (nth_indep _ 0%R (f 0)) by (rewrite length_map, length_seq; assumption).
  rewrite map_nth, seq_nth by assumption. reflexivity.
Qed.

Lemma resolve_axis_lt (ndim : nat) (axis : option Z) (k : nat) :
  Functional.resolve_axis ndim axis = Some k -> k < ndim.
Proof.
  unfold Functional.resolve_axis. cbv zeta.
  set (a := match axis with Some a => a | None => _ end).
  destruct (_ && _)%bool eqn:E1.
  - apply andb_true_iff in E1. destruct E1 as [H1 H2].
    apply Z.leb_le in H1. apply Z.ltb_lt in H2. intros [= H]. lia.
  - clear E1.
    destruct ((- Z.of_nat ndim <=? a)%Z && (a <? 0)%Z)%bool eqn:E2; [|discriminate].
    apply andb_true_iff in E2. destruct E2 as [H1 H2].
    apply Z.leb_le in H1. apply Z.ltb_lt in H2. intros [= H]. lia.
Qed.

End Row_major.

Section Softmax_operator.

Local Open Scope R_scope.

Variables (x : Tensor) (axis : option Z) (k : nat).
Hypothesis Hwf : well_formed x.
Hypothesis Haxis : Functional.resolve_axis (length (shape x)) axis = Some k.

Lemma softmax_returns :
  Functional.softmax x axis =
  Return (mkTensor (shape x)
            (Functional.softmax_data
               (nth k (map Z.to_nat (shape x)) 0%nat)
               (size (skipn (S k) (map Z.to_nat (shape x))))
               (data x))).
Proof using Haxis.
  unfold Functional.softmax. rewrite Haxis. reflexivity.
Qed.

Lemma softmax_data_length :
  length (data x) =
  (size (firstn k (map Z.to_nat (shape x))) *
   (nth k (map Z.to_nat (shape x)) 0 *
    size (skipn (S k) (map Z.to_nat (shape x)))))%nat.
Proof using Hwf Haxis.
  destruct Hwf as [Hnn Hlen]. rewrite Hlen, (numel_to_nat _ Hnn).
  pose proof (resolve_axis_lt _ _ _ Haxis) as Hk.
  set (dims := map Z.to_nat (shape x)).
  assert (Hk' : (k < length dims)%nat) by (subst dims; now rewrite length_map).
  rewrite (split_at k dims 0%nat Hk') at 1.
  rewrite size_app. reflexivity.
Qed.

Lemma softmax_range (n inner : nat) (d : list R) (outer : nat) (y : R) :
  length d = (outer * (n * inner))%nat ->
  In y (Functional.softmax_data n inner d) -> 0 <= y <= 1.
Proof using Type.
  intros Hlen Hy. unfold Functional.softmax_data in Hy.
  apply in_map_iff in Hy. destruct Hy as [p [<- Hp]].
  apply in_seq in Hp.
  assert (Hn : (0 < n)%nat) by nia.
  assert (Hi : (0 < inner)%nat) by nia.
  set (total := Rsum _).
  assert (HS : exp (nth p d 0) <= total).
  { apply Rsum_ge_member.
    - apply exps_positive.
    - apply (in_map (fun q => exp (nth q d 0))). now apply line_member. }
  pose proof (exp_pos (nth p d 0)) as He.
  assert (0 < / total) by (apply Rinv_0_lt_compat; lra).
  assert (total * / total = 1) by (apply Rinv_r; lra).
  unfold Rdiv. split; nra.
Qed.

Lemma softmax_line_sum (idx : list nat) :
  let dims := map Z.to_nat (shape x) in
  let n := nth k dims 0%nat in
  let inner := size (skipn (S k) dims) in
  Forall2 lt idx dims ->
  Rsum
    (map (fun j => nth (flat_index dims (set_coord k j idx))
                     (Functional.softmax_data n inner (data x)) 0)
         (seq 0 n)) = 1.
Proof using Hwf Haxis.
  intros dims n inner Hidx.
  pose proof (resolve_axis_lt _ _ _ Haxis) as Hk.
  assert (Hk' : (k < length dims)%nat) by (subst dims; now rewrite length_map).
  pose proof softmax_data_length as Hlen. fold dims n inner in Hlen.
  set (o := flat_index (firstn k dims) (firstn k idx)).
  set (i := flat_index (skipn (S k) dims) (skipn (S k) idx)).
  set (q := fun j : nat => (o * (n * inner) + j * inner + i)%nat).
  set (total := Rsum (map (fun j => exp (nth (q j) (data x) 0)) (seq 0 n))).
  destruct (flat_index_set_coord dims idx k 0 Hidx Hk') as [_ [Ho [Hi Hn]]].
  fold n inner o i in Ho, Hi, Hn.
  rewrite (map_ext_in _ (fun j => exp (nth (q j) (data x) 0) / total)).
  - rewrite Rsum_map_div. fold total. apply Rdiv_diag.
    assert (0 < total); [|lra].
    assert (Hin : In (exp (nth (q 0%nat) (data x) 0))
                    (map (fun j => exp (nth (q j) (data x) 0)) (seq 0 n))).
    { apply (in_map (fun j => exp (nth (q j) (data x) 0))). apply in_seq. lia. }
    pose proof (exp_pos (nth (q 0%nat) (data x) 0)).
    assert (exp (nth (q 0%nat) (data x) 0) <= total); [|lra].
    apply Rsum_ge_member; [|assumption].
    intros y Hy. apply in_map_iff in Hy. destruct Hy as [j [<- _]]. apply exp_pos.
  - intros j Hj. apply in_seq in Hj.
    destruct (flat_index_set_coord dims idx k j Hidx Hk') as [-> _].
    fold n inner o i. fold (q j).
    rewrite nth_softmax_data
      by (rewrite Hlen; unfold q; apply coords_in_range; lia).
    unfold q at 2. rewrite line_of_coords by lia.
    rewrite map_map. reflexivity.
Qed.

End Softmax_operator.

(** C3.  A Softmax layer constructed with [axis] and applied to a
    well-formed input, [axis] denoting one of its axes, returns a new tensor
    of the input's shape; every element of it lies in [[0, 1]], and along
    the axis the elements sum to 1: for every multi-index of the tensor, the
    elements met by letting its coordinate on the axis run over the axis
    add up to 1. *)
Theorem C3_softmax_normalises (axis : option Z) (w0 : world Softmax.t)
  (inputs : ref) (x : Tensor) (k : nat) :
  nth_error (heap w0) inputs = Some x ->
  well_formed x ->
  Functional.resolve_axis (length (shape x)) axis = Some k ->
  exists out,
    (Softmax.__init__ axis ;;
     Softmax.forward Functional.softmax inputs) w0 =
    (Return (length (heap w0)), World (Softmax.mk axis) (heap w0 ++ [out])) /\
    shape out = shape x /\
    length (data out) = length (data x) /\
    (forall y, In y (data out) -> (0 <= y <= 1)%R) /\
    forall idx, Forall2 lt idx (map Z.to_nat (shape x)) ->
      Rsum
        (map (fun j =>
                nth (flat_index (map Z.to_nat (shape x))
                       (set_coord k j idx))
                    (data out) 0%R)
             (seq 0 (nth k (map Z.to_nat (shape x)) 0%nat))) = 1%R.
Proof.
  intros Hx Hwf Haxis.
  eexists. split; [|split; [|split; [|split]]].
  - unfold Softmax.__init__, Softmax.forward, bind, setattr, load, getattr;
      cbn [self heap]. rewrite Hx.
    cbn [self heap Softmax.axis Softmax.set_axis].
    rewrite (softmax_returns x axis k Haxis). reflexivity.
  - reflexivity.
  - cbn [data]. unfold Functional.softmax_data.
    now rewrite length_map, length_seq.
  - cbn [data]. intros y.
    apply softmax_range with (outer := size (firstn k (map Z.to_nat (shape x)))).
    now apply softmax_data_length with (axis := axis).
  - cbn [data]. intros idx Hidx.
    now apply (softmax_line_sum x axis k Hwf Haxis idx).
Qed.

Lemma C3_softmax_normalises_witness :
  exists out,
    (Softmax.__init__ (Some 1%Z) ;;
     Softmax.forward Functional.softmax 0) (World blank_Softmax [matrix_input]) =
    (Return 1%nat, World (Softmax.mk (Some 1%Z)) ([matrix_input] ++ [out])) /\
    shape out = [2; 2]%Z.
Proof.
  assert (Hwf : well_formed matrix_input).
  { split; [repeat constructor; lia | reflexivity]. }
  destruct (C3_softmax_normalises (Some 1%Z) (World blank_Softmax [matrix_input])
              0%nat matrix_input 1%nat eq_refl Hwf eq_refl)
    as [out [H1 [H2 _]]].
  exists out. split; assumption.
Defined.

(** ** The model on small inputs *)

Example flat_index_2x3x2 :
  flat_index [2; 3; 2] [1; 0; 1] = 7.
Proof. reflexivity. Qed.

Example line_2x3x2_axis1 : line 3 2 7 = [7; 9; 11].
Proof. reflexivity. Qed.

Example resolve_axis_examples :
  Functional.resolve_axis 3 (Some (-1)%Z) = Some 2 /\
  Functional.resolve_axis 3 None = Some 2 /\
  Functional.resolve_axis 3 (Some 3%Z) = None /\
  Functional.resolve_axis 0 None = None.
Proof. repeat split. Qed.

Example softmax_of_equal_pair :
  Functional.softmax (mkTensor [2]%Z [0%R; 0%R]) None =
  Return (mkTensor [2]%Z [(1 / 2)%R; (1 / 2)%R]).
Proof.
  unfold Functional.softmax; simpl.
  unfold Functional.softmax_data, line; simpl.
  rewrite exp_0. repeat f_equal; lra.
Qed.

Example forward_rank1_input_channel_weight :
  PReLU.forward Functional.prelu 0
    (PReLU_world (N := example_numpy) 3 0.25 [example_input]) =
  (Raise (IndexError "tuple index out of range"),
   PReLU_world (N := example_numpy) 3 0.25 [example_input]).
Proof. reflexivity. Qed.

Example prelu_per_channel :
  Functional.prelu
    (mkTensor [1; 2; 1; 2]%Z [(-1)%R; (-2)%R; (-3)%R; 4%R])
    (mkTensor [1; 2; 1; 1]%Z [0.5%R; 2%R]) =
  Return (mkTensor [1; 2; 1; 2]%Z [(-0.5)%R; (-1)%R; (-6)%R; 4%R]).
Proof.
  unfold Functional.prelu, Functional.per_channel; simpl.
  rewrite !prelu_elt_neg by lra. rewrite prelu_elt_nonneg by lra.
  repeat f_equal; lra.
Qed.

Example prelu_documented_example_binary32 :
  map (Float32.prelu_elt (Float32.decimal 25 100))
      [Float32.decimal (-12) 10; Float32.decimal (-37) 10; Float32.decimal 27 10] =
  [Float32.decimal (-3) 10; Float32.decimal (-925) 1000; Float32.decimal 27 10].
Proof. vm_compute. reflexivity. Qed.

Example leaky_relu_documented_example :
  Functional.leaky_relu (mkTensor [4]%Z [(-8)%R; (-12)%R; 6%R; 10%R]) 0.01 =
  Return (mkTensor [4]%Z [(-0.08)%R; (-0.12)%R; 6%R; 10%R]).
Proof.
  unfold Functional.leaky_relu; simpl.
  rewrite !leaky_relu_elt_neg by lra. rewrite !leaky_relu_elt_nonneg by lra.
  repeat f_equal; lra.
Qed.

(** * Further properties *)

(** ** The information string of Softmax *)

Lemma str_int_inj (a b : Z) : str_int a = str_int b -> a = b.
Proof.
  intros H. unfold str_int in H.
  apply (f_equal DecimalString.NilEmpty.int_of_string) in H.
  rewrite !DecimalString.NilEmpty.isi in H. injection H as H.
  apply (f_equal Z.of_int) in H. now rewrite !DecimalZ.of_to in H.
Qed.

Lemma str_int_not_None (z : Z) : str_int z <> "None"%string.
Proof.
  intros H. unfold str_int in H.
  apply (f_equal DecimalString.NilEmpty.int_of_string) in H.
  rewrite DecimalString.NilEmpty.isi in H. discriminate H.
Qed.

Lemma str_axis_inj (a b : option Z) : str_axis a = str_axis b -> a = b.
Proof.
  destruct a as [x|], b as [y|]; simpl; intros H.
  - f_equal. now apply str_int_inj.
  - now apply str_int_not_None in H.
  - symmetry in H. now apply str_int_not_None in H.
  - reflexivity.
Qed.

(** X1.  [Softmax._module_info_string] only reads: it returns the text
    "axis=" followed by Python's [str] of the stored axis and leaves the
    state as it is.  The text tells the configuration: two Softmax layers
    constructed with axes [a1] and [a2] have the same information string if
    and only if [a1 = a2]; in particular no int axis prints like [None]. *)
Theorem X1_info_string_tells_axis (a1 a2 : option Z) (w1 w2 : world Softmax.t) :
  (Softmax.__init__ a1 ;; Softmax._module_info_string) w1 =
    (Return ("axis=" ++ str_axis a1)%string, World (Softmax.mk a1) (heap w1)) /\
  snd (Softmax._module_info_string w1) = w1 /\
  (fst ((Softmax.__init__ a1 ;; Softmax._module_info_string) w1) =
   fst ((Softmax.__init__ a2 ;; Softmax._module_info_string) w2) <->
   a1 = a2).
Proof.
  split; [reflexivity|]. split; [reflexivity|].
  unfold Softmax.__init__, Softmax._module_info_string, bind, setattr, getattr, ret;
    cbn [fst self Softmax.axis Softmax.set_axis].
  split.
  - intros [= H]. now apply str_axis_inj.
  - now intros ->.
Qed.

Example info_string_examples :
  fst (Softmax._module_info_string (World (Softmax.mk None) [])) =
    Return "axis=None"%string /\
  fst (Softmax._module_info_string (World (Softmax.mk (Some (-1)%Z)) [])) =
    Return "axis=-1"%string /\
  fst (Softmax._module_info_string (World (Softmax.mk (Some 10%Z)) [])) =
    Return "axis=10"%string.
Proof. repeat split. Qed.

(** ** PReLU over a sequence of calls *)

Lemma nth_error_write_shape (h : list Tensor) (r r' : ref) (d : list R) :
  option_map shape (nth_error (write h r d) r') =
  option_map shape (nth_error h r').
Proof.
  revert r r'; induction h as [|x h IH]; intros r r'; [now destruct r|].
  destruct r as [|r], r' as [|r']; simpl; auto.
Qed.

Lemma PReLU_init_returns {N : Numpy} (num_parameters : Z) (init : R)
  (w0 : world PReLU.t) :
  fst (PReLU.__init__ num_parameters init w0) = Return tt ->
  exists wt,
    PReLU.__init__ num_parameters init w0 =
    (Return tt,
     World (PReLU.mk num_parameters (length (heap w0))) (heap w0 ++ [wt])) /\
    shape wt = PReLU_weight_shape num_parameters.
Proof.
  intros Hr. unfold PReLU_weight_shape.
  destruct (Z.gtb_spec num_parameters 1) as [Hn|Hn].
  - destruct (Z.ltb_spec np_capacity num_parameters) as [Hc|Hc].
    + rewrite PReLU_init_refused in Hr by lia. discriminate Hr.
    + rewrite PReLU_init_channels by lia. eexists. split; reflexivity.
  - rewrite PReLU_init_scalar by lia. eexists. split; reflexivity.
Qed.

Lemma PReLU_init_weight_shape {N : Numpy} (num_parameters : Z) (init : R)
  (w0 : world PReLU.t) :
  fst (PReLU.__init__ num_parameters init w0) = Return tt ->
  exists wt,
    nth_error (heap (snd (PReLU.__init__ num_parameters init w0)))
      (PReLU.weight (self (snd (PReLU.__init__ num_parameters init w0)))) =
    Some wt /\
    shape wt = PReLU_weight_shape num_parameters.
Proof.
  intros Hr. destruct (PReLU_init_returns _ _ _ Hr) as [wt [-> Hs]].
  exists wt. split; [|assumption].
  cbn [snd heap self PReLU.weight].
  rewrite nth_error_app2 by lia. now rewrite Nat.sub_diag.
Qed.

(** The invariant of the sequence: the reference in [self.weight] points to
    a tensor of the shape the constructor gave it. *)
Lemma PReLU_reachable_weight_shape {N : Numpy}
  (prelu : Tensor -> Tensor -> outcome Tensor) (num_parameters : Z) (init : R)
  (w : world PReLU.t) :
  PReLU_reachable prelu num_parameters init w ->
  exists wt,
    nth_error (heap w) (PReLU.weight (self w)) = Some wt /\
    shape wt = PReLU_weight_shape num_parameters.
Proof.
  induction 1 as [w0 Hr | w inputs _ [wt [Hwt Hs]] | w x _ [wt [Hwt Hs]]
                 | w r d _ [wt [Hwt Hs]]].
  - now apply PReLU_init_weight_shape.
  - exists wt. split; [|assumption].
    pose proof (PReLU_forward_frame prelu inputs) as Hf.
    rewrite (frame_self _ w Hf). now apply frame_heap.
  - exists wt. split; [|assumption]. cbn [self heap].
    rewrite nth_error_app1; [assumption|]. apply nth_error_Some; congruence.
  - cbn [self heap].
    pose proof (nth_error_write_shape (heap w) r (PReLU.weight (self w)) d) as Hsh.
    rewrite Hwt in Hsh.
    destruct (nth_error (write (heap w) r d) (PReLU.weight (self w))) as [wt'|];
      [|discriminate].
    exists wt'. split; [reflexivity|]. simpl in Hsh. congruence.
Qed.

(** X2.  At every point of the life of a layer built by
    [PReLU(num_parameters, init)] -- after the constructor has returned,
    after any calls
    of [forward], after other code has created tensors or overwritten the
    elements of existing ones -- the shape check of [forward] on an input
    passes if and only if [num_parameters <= 1] or the input's dimension 1
    has size [num_parameters]; nothing else of the input's shape matters.
    Otherwise [forward] raises and leaves the state as it is: an
    AssertionError when dimension 1 has another size, an IndexError when the
    input has fewer than 2 dimensions. *)
Theorem X2_constructed_PReLU_accepts_iff_channels_match {N : Numpy}
  (prelu : Tensor -> Tensor -> outcome Tensor) (num_parameters : Z) (init : R)
  (w : world PReLU.t) (inputs : ref) (x : Tensor) :
  PReLU_reachable prelu num_parameters init w ->
  nth_error (heap w) inputs = Some x ->
  (PReLU.forward_assert inputs w = (Return tt, w) <->
   (num_parameters <= 1)%Z \/ nth_error (shape x) 1 = Some num_parameters) /\
  (forall c, (1 < num_parameters)%Z -> nth_error (shape x) 1 = Some c ->
     c <> num_parameters ->
     PReLU.forward prelu inputs w =
     (Raise (AssertionError "invalid weight's shape"), w)) /\
  ((1 < num_parameters)%Z -> nth_error (shape x) 1 = None ->
   PReLU.forward prelu inputs w =
   (Raise (IndexError "tuple index out of range"), w)).
Proof.
  intros Hr Hx.
  destruct (PReLU_reachable_weight_shape _ _ _ _ Hr) as [wt [Hwt Hs]].
  pose proof (forward_assert_eval w inputs x wt Hx Hwt) as He.
  rewrite Hs in He. unfold PReLU_weight_shape in He.
  destruct (Z.gtb_spec num_parameters 1) as [Hn|Hn].
  - cbn [tuple_eqb] in He. rewrite Z.eqb_refl in He. cbn [andb] in He.
    split; [|split].
    + rewrite He. destruct (nth_error (shape x) 1) as [c|].
      * destruct (Z.eqb_spec num_parameters c) as [->|Hc]; cbn [andb].
        -- split; auto.
        -- split; [discriminate|]. intros [H|[= H]]; [lia|congruence].
      * split; [discriminate|]. intros [H|H]; [lia|discriminate].
    + intros c _ Hc Hne. apply forward_assert_raises. rewrite He, Hc.
      destruct (Z.eqb_spec num_parameters c) as [->|_]; [contradiction|reflexivity].
    + intros _ Hc. apply forward_assert_raises. now rewrite He, Hc.
  - cbn [tuple_eqb] in He. split; [|split]; try lia.
    rewrite He. split; auto.
Qed.

Lemma X2_constructed_PReLU_accepts_iff_channels_match_witness :
  let w := snd (PReLU.forward Functional.prelu 1
                  (World (self (PReLU_world (N := example_numpy) 3 0.25
                                  [nchw_input; example_input]))
                     (write (heap (PReLU_world (N := example_numpy) 3 0.25
                                     [nchw_input; example_input]))
                        2 [0.1%R; 0.2%R; 0.3%R]))) in
  PReLU.forward_assert 0 w = (Return tt, w).
Proof.
  intros w.
  apply (X2_constructed_PReLU_accepts_iff_channels_match (N := example_numpy)
           Functional.prelu 3 0.25 w 0%nat nchw_input).
  - apply reach_forward. apply reach_write.
    apply (reach_init (N := example_numpy) Functional.prelu 3 0.25
             (World blank_PReLU [nchw_input; example_input])).
    reflexivity.
  - reflexivity.
  - right. reflexivity.
Defined.

(** ** Two PReLU instances *)

Lemma nth_error_write_other (h : list Tensor) (r r' : ref) (d : list R) :
  r <> r' -> nth_error (write h r d) r' = nth_error h r'.
Proof.
  revert r r'; induction h as [|x h IH]; intros r r' Hne; [now destruct r|].
  destruct r as [|r], r' as [|r']; simpl; auto; contradiction.
Qed.

(** X3.  Every call of [PReLU.__init__] that returns has created a weight
    of its own.  When a second layer is constructed after a first, whatever
    the arguments, the two [weight] attributes are different references,
    the first layer's weight is as it was, and overwriting the elements of
    the second layer's weight leaves the first layer's weight as it was. *)
Theorem X3_PReLU_instances_own_their_weight {N : Numpy}
  (n1 n2 : Z) (init1 init2 : R) (w0 : world PReLU.t) (blank : PReLU.t)
  (d : list R) :
  let r1 := PReLU.__init__ n1 init1 w0 in
  let r2 := PReLU.__init__ n2 init2 (World blank (heap (snd r1))) in
  fst r1 = Return tt ->
  fst r2 = Return tt ->
  PReLU.weight (self (snd r2)) <> PReLU.weight (self (snd r1)) /\
  nth_error (heap (snd r2)) (PReLU.weight (self (snd r1))) =
    nth_error (heap (snd r1)) (PReLU.weight (self (snd r1))) /\
  nth_error (write (heap (snd r2)) (PReLU.weight (self (snd r2))) d)
    (PReLU.weight (self (snd r1))) =
    nth_error (heap (snd r1)) (PReLU.weight (self (snd r1))).
Proof.
  intros r1 r2 H1 H2.
  destruct (PReLU_init_returns _ _ _ H1) as [wt1 [E1 _]].
  destruct (PReLU_init_returns _ _ _ H2) as [wt2 [E2 _]].
  subst r1 r2. rewrite E1 in E2 |- *. rewrite E2.
  cbn [snd heap self PReLU.weight] in *.
  assert (Hne : length (heap w0 ++ [wt1]) <> length (heap w0))
    by (rewrite length_app; simpl; lia).
  assert (Hkeep : nth_error ((heap w0 ++ [wt1]) ++ [wt2]) (length (heap w0)) =
                  nth_error (heap w0 ++ [wt1]) (length (heap w0))).
  { apply nth_error_app1. rewrite length_app. simpl. lia. }
  split; [assumption|]. split; [assumption|].
  now rewrite nth_error_write_other.
Qed.

Lemma X3_PReLU_instances_own_their_weight_witness :
  PReLU.weight (self (snd (PReLU.__init__ (N := example_numpy) 1 0.25
     (World blank_PReLU
        (heap (snd (PReLU.__init__ (N := example_numpy) 3 0.25
                      (World blank_PReLU []))))))))
  <> PReLU.weight (self (snd (PReLU.__init__ (N := example_numpy) 3 0.25
                                (World blank_PReLU [])))).
Proof.
  apply (X3_PReLU_instances_own_their_weight (N := example_numpy)
           3 1 0.25 0.25 (World blank_PReLU []) blank_PReLU []).
  - reflexivity.
  - reflexivity.
Defined.

(** ** Calling [forward] again *)

Lemma nth_error_snoc_old {A} (h : list A) (a x : A) (r : nat) :
  nth_error h r = Some x -> nth_error (h ++ [a]) r = Some x.
Proof.
  intros H. rewrite nth_error_app1; [assumption|].
  apply nth_error_Some; congruence.
Qed.

Lemma nth_error_snoc_new {A} (h : list A) (a : A) :
  nth_error (h ++ [a]) (length h) = Some a.
Proof. rewrite nth_error_app2 by lia. now rewrite Nat.sub_diag. Qed.

Lemma length_snoc {A} (h : list A) (a : A) : length (h ++ [a]) = S (length h).
Proof. rewrite length_app. simpl. lia. Qed.

(** A layer whose [forward] loads the input, reads attributes and hands both
    to the operator. *)
Ltac repeat_delegation :=
  intros w r1 w1;
  unfold bind, load, getattr, yield, alloc, raise; cbv beta;
  let x := fresh "x" in
  let Hx := fresh "Hx" in
  destruct (nth_error (heap w) _) as [x|] eqn:Hx; [|discriminate];
  match goal with
  | |- context [match ?r with Return _ => _ | Raise _ => _ end] =>
      let out := fresh "out" in
      let Ho := fresh "Ho" in
      destruct r as [out|] eqn:Ho; [|discriminate];
      intros [= <- <-]; exists out; cbn [heap self];
      split; [apply nth_error_snoc_new|];
      rewrite (nth_error_snoc_old _ out _ _ Hx); cbn [heap self];
      rewrite Ho; cbn [heap self]; rewrite length_snoc; reflexivity
  end.

Lemma Softmax_forward_repeatable softmax inputs :
  repeatable (Softmax.forward softmax inputs).
Proof. unfold Softmax.forward. repeat_delegation. Qed.

Lemma Sigmoid_forward_repeatable sigmoid inputs :
  repeatable (Sigmoid.forward sigmoid inputs).
Proof. unfold Sigmoid.forward. repeat_delegation. Qed.

Lemma SiLU_forward_repeatable silu inputs :
  repeatable (SiLU.forward silu inputs).
Proof. unfold SiLU.forward. repeat_delegation. Qed.

Lemma GELU_forward_repeatable gelu inputs :
  repeatable (GELU.forward gelu inputs).
Proof. unfold GELU.forward. repeat_delegation. Qed.

Lemma ReLU_forward_repeatable relu inputs :
  repeatable (ReLU.forward relu inputs).
Proof. unfold ReLU.forward. repeat_delegation. Qed.

Lemma LeakyReLU_forward_repeatable leaky_relu inputs :
  repeatable (LeakyReLU.forward leaky_relu inputs).
Proof. unfold LeakyReLU.forward. repeat_delegation. Qed.

Lemma ELU_forward_repeatable elu inputs :
  repeatable (ELU.forward elu inputs).
Proof. unfold ELU.forward. repeat_delegation. Qed.

Lemma PReLU_forward_repeatable prelu inputs :
  repeatable (PReLU.forward prelu inputs).
Proof.
  intros w r1 w1 H.
  destruct (PReLU_forward_returns prelu inputs w w1 r1 H) as [[x Hx] [wt Hwt]].
  pose proof (forward_assert_eval w inputs x wt Hx Hwt) as He.
  destruct (PReLU.forward_assert inputs w) as [[[]|e] wa] eqn:Ha.
  - pose proof (forward_assert_readonly inputs w) as Hro.
    rewrite Ha in Hro. simpl in Hro. subst wa.
    rewrite (forward_after_assert prelu w inputs x wt Hx Hwt Ha) in H.
    destruct (prelu x wt) as [out|e] eqn:Ho; [|discriminate].
    injection H as <- <-. exists out. cbn [heap self].
    split; [apply nth_error_snoc_new|].
    set (w1 := World (self w) (heap w ++ [out])).
    assert (Hx1 : nth_error (heap w1) inputs = Some x)
      by (apply nth_error_snoc_old; assumption).
    assert (Hwt1 : nth_error (heap w1) (PReLU.weight (self w1)) = Some wt)
      by (apply nth_error_snoc_old; assumption).
    assert (Ha1 : PReLU.forward_assert inputs w1 = (Return tt, w1)).
    { rewrite (forward_assert_eval w1 inputs x wt Hx1 Hwt1).
      destruct (tuple_eqb (shape wt) [1]%Z); [reflexivity|].
      destruct (nth_error (shape x) 1) as [c|]; [|discriminate].
      destruct (tuple_eqb (shape wt) [1; c; 1; 1]%Z); [reflexivity|discriminate]. }
    rewrite (forward_after_assert prelu w1 inputs x wt Hx1 Hwt1 Ha1), Ho.
    subst w1. unfold yield, alloc. cbn [heap self]. now rewrite length_snoc.
  - unfold PReLU.forward, bind at 1 in H. rewrite Ha in H. discriminate.
Qed.

(** X4.  Every layer's [forward] can be called again: if a call returns, the
    tensor it returned is in the heap, and the same call made in the state
    it left returns, at the next reference, a tensor equal to the first,
    leaving the first in place.  For PReLU this includes the shape check,
    which passes again. *)
Theorem X4_forward_repeatable
  (softmax : Tensor -> option Z -> outcome Tensor)
  (sigmoid silu gelu relu : Tensor -> outcome Tensor)
  (prelu : Tensor -> Tensor -> outcome Tensor)
  (leaky_relu elu : Tensor -> R -> outcome Tensor)
  (inputs : ref) :
  repeatable (Softmax.forward softmax inputs) /\
  repeatable (Sigmoid.forward sigmoid inputs) /\
  repeatable (SiLU.forward silu inputs) /\
  repeatable (GELU.forward gelu inputs) /\
  repeatable (ReLU.forward relu inputs) /\
  repeatable (PReLU.forward prelu inputs) /\
  repeatable (LeakyReLU.forward leaky_relu inputs) /\
  repeatable (ELU.forward elu inputs).
Proof.
  repeat split.
  - apply Softmax_forward_repeatable.
  - apply Sigmoid_forward_repeatable.
  - apply SiLU_forward_repeatable.
  - apply GELU_forward_repeatable.
  - apply ReLU_forward_repeatable.
  - apply PReLU_forward_repeatable.
  - apply LeakyReLU_forward_repeatable.
  - apply ELU_forward_repeatable.
Qed.

(** ** The layers of the ReLU family on the documented rules *)

Section Family.

Local Open Scope R_scope.

Lemma prelu_elt_leaky_relu_elt (a x : R) :
  Functional.prelu_elt a x = Functional.leaky_relu_elt a x.
Proof.
  unfold Functional.prelu_elt, Functional.leaky_relu_elt.
  now rewrite (Rmax_comm x 0), (Rmin_comm x 0).
Qed.

Lemma leaky_relu_elt_zero_slope (x : R) :
  Functional.leaky_relu_elt 0 x = Functional.relu_elt x.
Proof.
  unfold Functional.leaky_relu_elt, Functional.relu_elt.
  rewrite (Rmax_comm 0 x). ring.
Qed.

Lemma relu_elt_nonneg (x : R) : 0 <= Functional.relu_elt x.
Proof. unfold Functional.relu_elt. apply Rmax_r. Qed.

Lemma relu_elt_idempotent (x : R) :
  Functional.relu_elt (Functional.relu_elt x) = Functional.relu_elt x.
Proof.
  unfold Functional.relu_elt at 1. apply Rmax_left. apply relu_elt_nonneg.
Qed.

Lemma sigmoid_elt_range (x : R) : 0 < Functional.sigmoid_elt x < 1.
Proof.
  unfold Functional.sigmoid_elt. pose proof (exp_pos (- x)) as He.
  assert (H1 : 0 < / (1 + exp (- x))) by (apply Rinv_0_lt_compat; lra).
  assert (H2 : (1 + exp (- x)) * / (1 + exp (- x)) = 1) by (apply Rinv_r; lra).
  unfold Rdiv. split; nra.
Qed.

Lemma silu_elt_sigmoid_elt (x : R) :
  Functional.silu_elt x = x * Functional.sigmoid_elt x.
Proof. unfold Functional.silu_elt, Functional.sigmoid_elt, Rdiv. ring. Qed.

End Family.

Lemma per_channel_uniform (a : R) (c hw : nat) (d : list R) :
  0 < c ->
  Functional.per_channel (repeat a c) c hw d = map (Functional.prelu_elt a) d.
Proof.
  intros Hc. unfold Functional.per_channel.
  rewrite (map_ext _ (fun px => Functional.prelu_elt a (snd px))).
  - rewrite <- (map_map snd (Functional.prelu_elt a)). f_equal.
    generalize 0 at 1. induction d as [|y d IH]; intros k; simpl; [reflexivity|].
    now rewrite IH.
  - intros [p y]; cbn [fst snd]. f_equal.
    apply nth_repeat_lt. apply Nat.mod_upper_bound. lia.
Qed.

(** A PReLU layer built with [num_parameters <= 1], applied to an input. *)
Lemma PReLU_scalar_run {N : Numpy} (num_parameters : Z) (init : R)
  (p0 : PReLU.t) (h : list Tensor) (inputs : ref) (x : Tensor) :
  (num_parameters <= 1)%Z ->
  nth_error h inputs = Some x ->
  (PReLU.__init__ num_parameters init ;;
   PReLU.forward Functional.prelu inputs) (World p0 h) =
  (Return (S (length h)),
   World (PReLU.mk num_parameters (length h))
     (h ++ [mkTensor [1]%Z [init]]
        ++ [mkTensor (shape x) (map (Functional.prelu_elt init) (data x))])).
Proof.
  intros Hn Hx. unfold bind at 1.
  rewrite PReLU_init_scalar by assumption. cbn [heap].
  set (w := World _ _).
  assert (Hin : nth_error (heap w) inputs = Some x)
    by (apply nth_error_snoc_old; assumption).
  assert (Hwt : nth_error (heap w) (PReLU.weight (self w)) =
                Some (mkTensor [1]%Z [init])) by apply nth_error_snoc_new.
  rewrite (forward_after_assert Functional.prelu w inputs _ _ Hin Hwt
             (forward_assert_scalar_weight w inputs
                (mkTensor [1]%Z [init]) Hwt eq_refl)).
  rewrite (prelu_scalar_weight x (mkTensor [1]%Z [init]) init eq_refl eq_refl).
  subst w; unfold yield, alloc; cbn [heap self].
  now rewrite length_snoc, <- app_assoc.
Qed.

(** A PReLU layer built with [num_parameters = c > 1], applied to an NCHW
    input with [c] channels. *)
Lemma PReLU_channel_run {N : Numpy} (c : Z) (init : R) (p0 : PReLU.t)
  (h : list Tensor) (inputs : ref) (x : Tensor) (n hh ww : Z) :
  (1 < c <= np_capacity)%Z ->
  nth_error h inputs = Some x ->
  shape x = [n; c; hh; ww]%Z ->
  (PReLU.__init__ c init ;;
   PReLU.forward Functional.prelu inputs) (World p0 h) =
  (Return (S (length h)),
   World (PReLU.mk c (length h))
     (h ++ [filled [1; c; 1; 1]%Z (np_float32 init)]
        ++ [mkTensor (shape x)
              (map (Functional.prelu_elt (np_float32 init)) (data x))])).
Proof.
  intros Hc Hx Hs. unfold bind at 1.
  rewrite PReLU_init_channels by assumption. cbn [heap].
  assert (Hfill : mkTensor [1; c; 1; 1]%Z (repeat (np_float32 init) (Z.to_nat c)) =
                  filled [1; c; 1; 1]%Z (np_float32 init))
    by (unfold filled; now rewrite numel_1n11).
  rewrite Hfill. set (w := World _ _).
  assert (Hin : nth_error (heap w) inputs = Some x)
    by (apply nth_error_snoc_old; assumption).
  assert (Hwt : nth_error (heap w) (PReLU.weight (self w)) =
                Some (filled [1; c; 1; 1]%Z (np_float32 init)))
    by apply nth_error_snoc_new.
  assert (Hne : tuple_eqb [1; c; 1; 1]%Z [1]%Z = false) by reflexivity.
  assert (Heq : tuple_eqb [1; c; 1; 1]%Z [1; c; 1; 1]%Z = true)
    by now apply tuple_eqb_eq.
  assert (Ha : PReLU.forward_assert inputs w = (Return tt, w)).
  { rewrite (forward_assert_eval w inputs x _ Hin Hwt).
    cbn [shape filled]. rewrite Hne, Hs. cbn [nth_error]. now rewrite Heq. }
  rewrite (forward_after_assert Functional.prelu w inputs _ _ Hin Hwt Ha).
  unfold Functional.prelu. cbn [shape data filled].
  rewrite Hne, Hs, Heq, numel_1n11.
  rewrite per_channel_uniform by lia.
  subst w; unfold yield, alloc; cbn [heap self].
  now rewrite length_snoc, <- app_assoc.
Qed.

(** X5.  On the rules their documentation gives, a LeakyReLU layer with
    slope [s] and a PReLU layer constructed with the default
    [num_parameters] and [init = s] return equal tensors on every input, of
    any shape; and a LeakyReLU layer with slope 0 returns what a ReLU layer
    returns. *)
Theorem X5_LeakyReLU_is_PReLU_with_one_slope {N : Numpy} (s : R)
  (l0 : LeakyReLU.t) (p0 : PReLU.t) (r0 : ReLU.t) (h : list Tensor)
  (inputs : ref) (x : Tensor) :
  nth_error h inputs = Some x ->
  exists out out0,
    (LeakyReLU.__init__ s ;;
     LeakyReLU.forward Functional.leaky_relu inputs) (World l0 h) =
    (Return (length h), World (LeakyReLU.mk s) (h ++ [out])) /\
    (PReLU.__init__ PReLU.default_num_parameters s ;;
     PReLU.forward Functional.prelu inputs) (World p0 h) =
    (Return (S (length h)),
     World (PReLU.mk 1 (length h)) (h ++ [mkTensor [1]%Z [s]] ++ [out])) /\
    (LeakyReLU.__init__ 0 ;;
     LeakyReLU.forward Functional.leaky_relu inputs) (World l0 h) =
    (Return (length h), World (LeakyReLU.mk 0) (h ++ [out0])) /\
    ReLU.forward Functional.relu inputs (World r0 h) =
    (Return (length h), World r0 (h ++ [out0])).
Proof.
  intros Hx.
  exists (mkTensor (shape x) (map (Functional.leaky_relu_elt s) (data x))).
  exists (mkTensor (shape x) (map Functional.relu_elt (data x))).
  split; [|split; [|split]].
  - unfold LeakyReLU.__init__, LeakyReLU.forward, bind, setattr, load, getattr;
      cbn [self heap]. rewrite Hx. reflexivity.
  - rewrite (PReLU_scalar_run _ s p0 h inputs x) by (assumption || reflexivity || (unfold PReLU.default_num_parameters; lia)).
    rewrite (map_ext _ _ (prelu_elt_leaky_relu_elt s)). reflexivity.
  - unfold LeakyReLU.__init__, LeakyReLU.forward, bind, setattr, load, getattr;
      cbn [self heap]. rewrite Hx.
    unfold Functional.leaky_relu, yield, alloc;
      cbn [self heap LeakyReLU.negative_slope LeakyReLU.set_negative_slope].
    rewrite (map_ext _ _ leaky_relu_elt_zero_slope). reflexivity.
  - unfold ReLU.forward, bind, load; cbn [heap]. rewrite Hx. reflexivity.
Qed.

Lemma X5_LeakyReLU_is_PReLU_with_one_slope_witness :
  exists out,
    (LeakyReLU.__init__ 0.01 ;;
     LeakyReLU.forward Functional.leaky_relu 0) (World blank_LeakyReLU [example_input]) =
    (Return 1%nat, World (LeakyReLU.mk 0.01) ([example_input] ++ [out])) /\
    (PReLU.__init__ (N := example_numpy) PReLU.default_num_parameters 0.01 ;;
     PReLU.forward Functional.prelu 0) (World blank_PReLU [example_input]) =
    (Return 2%nat,
     World (PReLU.mk 1 1)
       ([example_input] ++ [mkTensor [1]%Z [0.01%R]] ++ [out])).
Proof.
  destruct (X5_LeakyReLU_is_PReLU_with_one_slope (N := example_numpy)
              0.01 blank_LeakyReLU
              blank_PReLU ReLU.mk [example_input] 0%nat example_input eq_refl)
    as [out [_ [H1 [H2 _]]]].
  exists out. split; assumption.
Defined.

(** X6.  On the documented rule, a PReLU layer built with one slope for
    each of [c > 1] channels starts out as a layer with a single slope:
    [np.full] gives every channel the slope [np.float32(init)], so that
    right after construction, on an NCHW input with [c] channels,
    [PReLU(c, init)] returns the tensor that the layer with the single
    slope [np.float32(init)] returns, which is [PReLU(1, init)] itself
    where [init] is a float32 number. *)
Theorem X6_fresh_per_channel_PReLU_is_uniform {N : Numpy} (c : Z) (init : R)
  (p0 : PReLU.t) (h : list Tensor) (inputs : ref) (x : Tensor) (n hh ww : Z) :
  (1 < c <= np_capacity)%Z ->
  nth_error h inputs = Some x ->
  shape x = [n; c; hh; ww]%Z ->
  exists out,
    (PReLU.__init__ c init ;;
     PReLU.forward Functional.prelu inputs) (World p0 h) =
    (Return (S (length h)),
     World (PReLU.mk c (length h))
       (h ++ [filled [1; c; 1; 1]%Z (np_float32 init)] ++ [out])) /\
    (PReLU.__init__ 1 (np_float32 init) ;;
     PReLU.forward Functional.prelu inputs) (World p0 h) =
    (Return (S (length h)),
     World (PReLU.mk 1 (length h))
       (h ++ [mkTensor [1]%Z [np_float32 init]] ++ [out])) /\
    (np_float32 init = init ->
     (PReLU.__init__ 1 init ;;
      PReLU.forward Functional.prelu inputs) (World p0 h) =
     (Return (S (length h)),
      World (PReLU.mk 1 (length h))
        (h ++ [mkTensor [1]%Z [init]] ++ [out]))).
Proof.
  intros Hc Hx Hs.
  exists (mkTensor (shape x)
            (map (Functional.prelu_elt (np_float32 init)) (data x))).
  split; [|split].
  - now apply PReLU_channel_run with (n := n) (hh := hh) (ww := ww).
  - apply PReLU_scalar_run; [lia|assumption].
  - intros Hi. rewrite Hi. apply PReLU_scalar_run; [lia|assumption].
Qed.

Lemma X6_fresh_per_channel_PReLU_is_uniform_witness :
  exists out,
    (PReLU.__init__ (N := example_numpy) 3 0.25 ;;
     PReLU.forward Functional.prelu 0) (World blank_PReLU [nchw_input]) =
    (Return 2%nat,
     World (PReLU.mk 3 1)
       ([nchw_input] ++ [filled [1; 3; 1; 1]%Z 0.25%R] ++ [out])) /\
    (PReLU.__init__ (N := example_numpy) 1 0.25 ;;
     PReLU.forward Functional.prelu 0) (World blank_PReLU [nchw_input]) =
    (Return 2%nat,
     World (PReLU.mk 1 1)
       ([nchw_input] ++ [mkTensor [1]%Z [0.25%R]] ++ [out])).
Proof.
  assert (Hc : (1 < 3 <= @np_capacity example_numpy)%Z) by (cbn; lia).
  destruct (X6_fresh_per_channel_PReLU_is_uniform (N := example_numpy) 3 0.25
              blank_PReLU [nchw_input] 0%nat nchw_input 2 4 4 Hc
              eq_refl eq_refl) as [out [H1 [_ H3]]].
  assert (Hq : @np_float32 example_numpy 0.25%R = 0.25%R)
    by apply round_binary32_quarter.
  exists out. rewrite Hq in H1. split; [exact H1 | exact (H3 Hq)].
Defined.

(** X7.  On the documented rule max(x, 0), a ReLU layer returns a tensor of
    the input's shape with no negative element, in which every element of
    the input that is [>= 0] is kept; and the layer applied to the tensor
    it returned returns an equal tensor. *)
Theorem X7_ReLU_nonnegative_and_idempotent (r0 : ReLU.t) (h : list Tensor)
  (inputs : ref) (x : Tensor) :
  nth_error h inputs = Some x ->
  exists out,
    ReLU.forward Functional.relu inputs (World r0 h) =
    (Return (length h), World r0 (h ++ [out])) /\
    shape out = shape x /\
    Forall (fun y => (0 <= y)%R) (data out) /\
    (forall i xi, nth_error (data x) i = Some xi -> (0 <= xi)%R ->
       nth_error (data out) i = Some xi) /\
    ReLU.forward Functional.relu (length h) (World r0 (h ++ [out])) =
    (Return (S (length h)), World r0 ((h ++ [out]) ++ [out])).
Proof.
  intros Hx.
  exists (mkTensor (shape x) (map Functional.relu_elt (data x))).
  split; [|split; [|split; [|split]]].
  - unfold ReLU.forward, bind, load; cbn [heap]. rewrite Hx. reflexivity.
  - reflexivity.
  - cbn [data]. apply Forall_forall. intros y Hy.
    apply in_map_iff in Hy. destruct Hy as [z [<- _]]. apply relu_elt_nonneg.
  - cbn [data]. intros i xi Hi Hpos.
    rewrite (nth_error_map_Some _ _ _ _ Hi). f_equal.
    unfold Functional.relu_elt. now apply Rmax_left.
  - unfold ReLU.forward, bind, load; cbn [heap].
    rewrite nth_error_snoc_new.
    unfold Functional.relu, yield, alloc; cbn [heap self shape data].
    rewrite map_map, (map_ext _ _ relu_elt_idempotent), length_snoc.
    reflexivity.
Qed.

Lemma X7_ReLU_nonnegative_and_idempotent_witness :
  exists out,
    ReLU.forward Functional.relu 0 (World ReLU.mk [example_input]) =
    (Return 1%nat, World ReLU.mk ([example_input] ++ [out])) /\
    shape out = [3]%Z.
Proof.
  destruct (X7_ReLU_nonnegative_and_idempotent ReLU.mk [example_input] 0%nat
              example_input eq_refl) as [out [H1 [H2 _]]].
  exists out. split; assumption.
Defined.

(** X8.  On the documented rules 1 / (1 + exp(-x)) and x / (1 + exp(-x)),
    a Sigmoid layer and a SiLU layer return tensors of the input's shape;
    every element of Sigmoid's lies strictly between 0 and 1, and every
    element of SiLU's is the input's element times Sigmoid's. *)
Theorem X8_SiLU_is_input_times_Sigmoid (g0 : Sigmoid.t) (s0 : SiLU.t)
  (h : list Tensor) (inputs : ref) (x : Tensor) :
  nth_error h inputs = Some x ->
  exists sg sl,
    Sigmoid.forward Functional.sigmoid inputs (World g0 h) =
    (Return (length h), World g0 (h ++ [sg])) /\
    SiLU.forward Functional.silu inputs (World s0 h) =
    (Return (length h), World s0 (h ++ [sl])) /\
    shape sg = shape x /\
    shape sl = shape x /\
    forall i xi, nth_error (data x) i = Some xi ->
      exists si, nth_error (data sg) i = Some si /\
                 (0 < si < 1)%R /\
                 nth_error (data sl) i = Some (xi * si)%R.
Proof.
  intros Hx.
  exists (mkTensor (shape x) (map Functional.sigmoid_elt (data x))).
  exists (mkTensor (shape x) (map Functional.silu_elt (data x))).
  split; [|split; [|split; [|split]]].
  - unfold Sigmoid.forward, bind, load; cbn [heap]. rewrite Hx. reflexivity.
  - unfold SiLU.forward, bind, load; cbn [heap]. rewrite Hx. reflexivity.
  - reflexivity.
  - reflexivity.
  - cbn [data]. intros i xi Hi. exists (Functional.sigmoid_elt xi).
    split; [now apply nth_error_map_Some|].
    split; [apply sigmoid_elt_range|].
    rewrite (nth_error_map_Some _ _ _ _ Hi). f_equal.
    apply silu_elt_sigmoid_elt.
Qed.

Lemma X8_SiLU_is_input_times_Sigmoid_witness :
  exists sg sl,
    Sigmoid.forward Functional.sigmoid 0 (World Sigmoid.mk [example_input]) =
    (Return 1%nat, World Sigmoid.mk ([example_input] ++ [sg])) /\
    SiLU.forward Functional.silu 0 (World SiLU.mk [example_input]) =
    (Return 1%nat, World SiLU.mk ([example_input] ++ [sl])).
Proof.
  destruct (X8_SiLU_is_input_times_Sigmoid Sigmoid.mk SiLU.mk [example_input]
              0%nat example_input eq_refl) as [sg [sl [H1 [H2 _]]]].
  exists sg, sl. split; assumption.
Defined.

(** ** Softmax and a constant added to the input *)

Section Softmax_shift.

Local Open Scope R_scope.

Lemma Rsum_map_scale {A} (k : R) (f : A -> R) (l : list A) :
  Rsum (map (fun a => k * f a) l) = k * Rsum (map f l).
Proof.
  induction l as [|a l IH]; simpl; [ring|]. rewrite IH. ring.
Qed.

Lemma nth_map_shift (c : R) (d : list R) (p : nat) :
  (p < length d)%nat -> nth p (map (Rplus c) d) 0 = c + nth p d 0.
Proof.
  intros Hp.
  rewrite (nth_indep _ 0 (c + 0)) by (now rewrite length_map).
  apply (map_nth (Rplus c)).
Qed.

Lemma line_in_range (outer n inner p q : nat) :
  (p < outer * (n * inner))%nat -> In q (line n inner p) ->
  (q < outer * (n * inner))%nat.
Proof.
  intros Hp Hq. unfold line in Hq. apply in_map_iff in Hq.
  destruct Hq as [j [<- Hj]]. apply in_seq in Hj.
  assert (Hi : (0 < inner)%nat) by nia.
  apply coords_in_range.
  - apply Nat.Div0.div_lt_upper_bound. lia.
  - lia.
  - now apply Nat.mod_upper_bound, Nat.neq_0_lt_0.
Qed.

Lemma softmax_data_shift (c : R) (outer n inner : nat) (d : list R) :
  length d = (outer * (n * inner))%nat ->
  Functional.softmax_data n inner (map (Rplus c) d) =
  Functional.softmax_data n inner d.
Proof.
  intros Hlen. unfold Functional.softmax_data. rewrite length_map.
  apply map_ext_in. intros p Hp. apply in_seq in Hp.
  assert (Hp' : (p < length d)%nat) by lia.
  assert (Hn : (0 < n)%nat) by nia.
  assert (Hi : (0 < inner)%nat) by nia.
  rewrite (nth_map_shift c d p Hp'), exp_plus.
  rewrite (map_ext_in _ (fun q => exp c * exp (nth q d 0))).
  - rewrite Rsum_map_scale.
    set (total := Rsum _).
    assert (exp (nth p d 0) <= total).
    { apply Rsum_ge_member.
      - apply exps_positive.
      - apply (in_map (fun q => exp (nth q d 0))). now apply line_member. }
    pose proof (exp_pos (nth p d 0)). pose proof (exp_pos c).
    field. split; lra.
  - intros q Hq. rewrite nth_map_shift, exp_plus; [reflexivity|].
    rewrite Hlen. apply (line_in_range outer n inner p q); [lia|assumption].
Qed.

End Softmax_shift.

(** X9.  On the documented rule exp(x_i) / sum_j exp(x_j), Softmax does not
    see a constant added to every element of its input: for a well-formed
    tensor and the same tensor with [c] added throughout, a Softmax layer
    constructed with any [axis] behaves the same, returning equal tensors or
    raising the same exception. *)
Theorem X9_softmax_ignores_a_constant_shift (axis : option Z) (c : R)
  (w0 : world Softmax.t) (inputs inputs' : ref) (x : Tensor) :
  nth_error (heap w0) inputs = Some x ->
  nth_error (heap w0) inputs' =
    Some (mkTensor (shape x) (map (Rplus c) (data x))) ->
  well_formed x ->
  (Softmax.__init__ axis ;;
   Softmax.forward Functional.softmax inputs') w0 =
  (Softmax.__init__ axis ;;
   Softmax.forward Functional.softmax inputs) w0.
Proof.
  intros Hx Hx' Hwf.
  unfold Softmax.__init__, Softmax.forward, bind, setattr, load, getattr;
    cbn [self heap]. rewrite Hx, Hx'.
  cbn [self heap Softmax.axis Softmax.set_axis].
  f_equal. unfold Functional.softmax; cbn [shape data].
  destruct (Functional.resolve_axis (length (shape x)) axis) as [k|] eqn:Hk;
    [|reflexivity].
  rewrite (softmax_data_shift c _ _ _ _ (softmax_data_length x axis k Hwf Hk)).
  reflexivity.
Qed.

Lemma X9_softmax_ignores_a_constant_shift_witness :
  (Softmax.__init__ (Some 1%Z) ;;
   Softmax.forward Functional.softmax 1)
    (World blank_Softmax
       [matrix_input; mkTensor (shape matrix_input)
                        (map (Rplus 5) (data matrix_input))]) =
  (Softmax.__init__ (Some 1%Z) ;;
   Softmax.forward Functional.softmax 0)
    (World blank_Softmax
       [matrix_input; mkTensor (shape matrix_input)
                        (map (Rplus 5) (data matrix_input))]).
Proof.
  apply (X9_softmax_ignores_a_constant_shift (Some 1%Z) 5
           (World blank_Softmax
              [matrix_input; mkTensor (shape matrix_input)
                               (map (Rplus 5) (data matrix_input))])
           0%nat 1%nat matrix_input).
  - reflexivity.
  - reflexivity.
  - split; [repeat constructor; lia | reflexivity].
Defined.
